(** * The VSX extensions model (vsx-extensions-model.ts)

    A shallow embedding of the class [VSXExtensionsModel]: the extension
    record store, the query setter, the debounced search cycle with its
    cancellation tokens, the installed-set reconciliation, and the
    [refresh] / [resolve] operations.

    The class is asynchronous.  Every [async] body is cut at its [await]s
    into synchronous segments; a suspended operation sits in the state as a
    [Suspended] item until the awaited collaborator answers.  JavaScript
    runs one segment at a time, so a segment is a function on the state. *)

From Stdlib Require Import ZArith String Ascii List Lia.
From stdpp Require Import base option list strings gmap.

(** ** Strings *)

(** [String.prototype.toLowerCase], on the ASCII letters.  Bytes outside
    'A'..'Z' are returned as they are. *)
Definition toLowerCase_ascii (c : ascii) : ascii :=
  let n := N_of_ascii c in
  if ((65 <=? n) && (n <=? 90))%N then ascii_of_N (n + 32) else c.

Fixpoint toLowerCase (s : string) : string :=
  match s with
  | EmptyString => EmptyString
  | String c r => String (toLowerCase_ascii c) (toLowerCase r)
  end.

(** ** Errors and promise replies *)

(** What a rejected promise carries.  [VSXResponseError.is(e)] holds of the
    first constructor only. *)
Inductive Exn :=
| VSXResponseError (statusCode : Z)
| Error (message : string).

#[global] Instance Exn_eq_dec : EqDecision Exn.
Proof. solve_decision. Defined.

(** [VSXResponseError.is(e) && e.statusCode === 404] *)
Definition isNotFound (e : Exn) : bool :=
  match e with
  | VSXResponseError c => bool_decide (c = 404%Z)
  | Error _ => false
  end.

(** The settlement of an awaited promise of a collaborator. *)
Inductive Reply (A : Type) :=
| Ok (a : A)
| Err (e : Exn).
Arguments Ok {A} a.
Arguments Err {A} e.

(** ** Extension records *)

Inductive Value :=
| VString (s : string)
| VBool (b : bool).

#[global] Instance Value_eq_dec : EqDecision Value.
Proof. solve_decision. Defined.

(** [Partial<VSXExtensionData>]: the fields that are present. *)
Abbreviation VSXExtensionData := (gmap string Value).

(** Modelled from the spec: the class [VSXExtension] (vsx-extension.ts) is
    not among the sources.  A record is identified by its id and carries the
    fields merged into it so far. *)
Record VSXExtension := mkExtension {
  ext_id : string;
  ext_data : gmap string Value
}.

#[global] Instance VSXExtension_eq_dec : EqDecision VSXExtension.
Proof. solve_decision. Defined.

(** Modelled from the spec: [VSXExtensionFactory] is not among the sources.
    A record is created on first reference with just an id. *)
Definition extensionFactory (id : string) : VSXExtension :=
  mkExtension id ∅.

(** Modelled from the spec: [VSXExtension.update] is not among the sources.
    A partial field set is applied onto the existing record: a field that
    the update provides is overwritten, every other field is kept. *)
Definition update (d : gmap string Value) (e : VSXExtension) : VSXExtension :=
  mkExtension (ext_id e) (d ∪ ext_data e).

(** Modelled from the spec: the getter [VSXExtension.installed] is not among
    the sources.  The record carries an [installed] boolean. *)
Definition installed (e : VSXExtension) : bool :=
  bool_decide (ext_data e !! "installed" = Some (VBool true)).

(** Modelled from the spec: the getter [VSXExtension.readmeUrl] is not among
    the sources.  The source tests it for truthiness, so the empty string
    counts as no url. *)
Definition readmeUrl (e : VSXExtension) : option string :=
  match ext_data e !! "readmeUrl" with
  | Some (VString u) => if bool_decide (u = "") then None else Some u
  | _ => None
  end.

(** An entry of [result.extensions] of a registry search.  [publisher] and
    [name] are read by the source; the entry as a whole is the partial
    field set handed to [update]. *)
Record VSXSearchEntry := mkEntry {
  entry_publisher : string;
  entry_name : string;
  entry_rest : gmap string Value
}.

Definition entry_data (d : VSXSearchEntry) : gmap string Value :=
  <["publisher" := VString (entry_publisher d)]>
    (<["name" := VString (entry_name d)]> (entry_rest d)).

(** [data.publisher.toLowerCase() + '.' + data.name.toLowerCase()] *)
Definition entry_id (d : VSXSearchEntry) : string :=
  toLowerCase (entry_publisher d) +:+ "." +:+ toLowerCase (entry_name d).

(** An element of [pluginSupport.plugins]: [plugin.model.id] and
    [plugin.model.engine.type]. *)
Record Plugin := mkPlugin {
  model_id : string;
  model_engine_type : string
}.

(** ** JavaScript [Set<string>]

    A [Set] iterates in insertion order and holds no duplicates. *)
Definition Set_add (x : string) (l : list string) : list string :=
  if bool_decide (x ∈ l) then l else l ++ [x].

Definition Set_delete (x : string) (l : list string) : list string :=
  filter (λ y, y ≠ x) l.

(** ** Suspended operations *)

(** Where an operation of the model waits.  The [doChange] callback is
    handed to [progressService.withProgress], which decides when to run it;
    the other items wait for the registry. *)
Inductive Suspended :=
| ProgressSearch (param : string) (token : nat)
| AwaitSearch (param : string) (token : nat)
| ProgressInstalled
| AwaitRefresh (id : string)
| ProgressResolve (id : string)
| AwaitResolveRefresh (id : string)
| AwaitReadme (id : string) (url : string).

#[global] Instance Suspended_eq_dec : EqDecision Suspended.
Proof. solve_decision. Defined.

Fixpoint remove_first (k : Suspended) (l : list Suspended) : list Suspended :=
  match l with
  | [] => []
  | k' :: r => if decide (k = k') then r else k' :: remove_first k r
  end.

(** ** Observations *)

Inductive Event :=
| DidChange
| DidChangeQuery (q : string).

(** The operations whose promise settles. *)
Inductive Op :=
| OpSearch (token : nat)
| OpInstalled
| OpResolve (id : string).

Inductive Settlement :=
| Fulfilled (op : Op) (v : option VSXExtension)
| Rejected (op : Op) (e : Exn).

(** ** The state *)

Record State := mkState {
  (* fields of the class *)
  _query : string;
  extensions : gmap string VSXExtension;
  _installed : list string;
  _searchResult : list string;
  searchCancellationTokenSource : nat;
  (* cancellation tokens: the sources on which [cancel] was called, and the
     next source to be allocated by [new CancellationTokenSource()] *)
  cancelled : gset nat;
  fresh : nat;
  (* collaborators: [pluginSupport.plugins], the time left on the timer of
     [debounce], and the operations that wait for a collaborator *)
  plugins : list Plugin;
  timer : option nat;
  suspended : list Suspended;
  (* observations: the events fired, the calls of [console.error], the
     search cycles started (query and token), the promises settled *)
  fired : list Event;
  console : list (string * Exn);
  cycles : list (string * nat);
  settled : list Settlement
}.

Definition set_query (q : string) (s : State) : State :=
  mkState q (extensions s) (_installed s) (_searchResult s)
    (searchCancellationTokenSource s) (cancelled s) (fresh s) (plugins s)
    (timer s) (suspended s) (fired s) (console s) (cycles s) (settled s).

Definition set_extensions (m : gmap string VSXExtension) (s : State) : State :=
  mkState (_query s) m (_installed s) (_searchResult s)
    (searchCancellationTokenSource s) (cancelled s) (fresh s) (plugins s)
    (timer s) (suspended s) (fired s) (console s) (cycles s) (settled s).

Definition set_installed (l : list string) (s : State) : State :=
  mkState (_query s) (extensions s) l (_searchResult s)
    (searchCancellationTokenSource s) (cancelled s) (fresh s) (plugins s)
    (timer s) (suspended s) (fired s) (console s) (cycles s) (settled s).

Definition set_searchResult (l : list string) (s : State) : State :=
  mkState (_query s) (extensions s) (_installed s) l
    (searchCancellationTokenSource s) (cancelled s) (fresh s) (plugins s)
    (timer s) (suspended s) (fired s) (console s) (cycles s) (settled s).

Definition set_tokens (src : nat) (c : gset nat) (f : nat) (s : State) : State :=
  mkState (_query s) (extensions s) (_installed s) (_searchResult s)
    src c f (plugins s)
    (timer s) (suspended s) (fired s) (console s) (cycles s) (settled s).

Definition set_plugins (ps : list Plugin) (s : State) : State :=
  mkState (_query s) (extensions s) (_installed s) (_searchResult s)
    (searchCancellationTokenSource s) (cancelled s) (fresh s) ps
    (timer s) (suspended s) (fired s) (console s) (cycles s) (settled s).

Definition set_timer (t : option nat) (s : State) : State :=
  mkState (_query s) (extensions s) (_installed s) (_searchResult s)
    (searchCancellationTokenSource s) (cancelled s) (fresh s) (plugins s)
    t (suspended s) (fired s) (console s) (cycles s) (settled s).

Definition set_suspended (l : list Suspended) (s : State) : State :=
  mkState (_query s) (extensions s) (_installed s) (_searchResult s)
    (searchCancellationTokenSource s) (cancelled s) (fresh s) (plugins s)
    (timer s) l (fired s) (console s) (cycles s) (settled s).

Definition set_fired (l : list Event) (s : State) : State :=
  mkState (_query s) (extensions s) (_installed s) (_searchResult s)
    (searchCancellationTokenSource s) (cancelled s) (fresh s) (plugins s)
    (timer s) (suspended s) l (console s) (cycles s) (settled s).

Definition set_console (l : list (string * Exn)) (s : State) : State :=
  mkState (_query s) (extensions s) (_installed s) (_searchResult s)
    (searchCancellationTokenSource s) (cancelled s) (fresh s) (plugins s)
    (timer s) (suspended s) (fired s) l (cycles s) (settled s).

Definition set_cycles (l : list (string * nat)) (s : State) : State :=
  mkState (_query s) (extensions s) (_installed s) (_searchResult s)
    (searchCancellationTokenSource s) (cancelled s) (fresh s) (plugins s)
    (timer s) (suspended s) (fired s) (console s) l (settled s).

Definition set_settled (l : list Settlement) (s : State) : State :=
  mkState (_query s) (extensions s) (_installed s) (_searchResult s)
    (searchCancellationTokenSource s) (cancelled s) (fresh s) (plugins s)
    (timer s) (suspended s) (fired s) (console s) (cycles s) l.

(** ** A state and exception monad for the segments *)

Inductive Outcome (A : Type) :=
| Returned (a : A)
| Thrown (e : Exn).
Arguments Returned {A} a.
Arguments Thrown {A} e.

Definition M (A : Type) : Type := State → Outcome A * State.

Definition ret {A} (a : A) : M A := λ s, (Returned a, s).
Definition throw {A} (e : Exn) : M A := λ s, (Thrown e, s).
Definition bind {A B} (m : M A) (f : A → M B) : M B :=
  λ s, match m s with
       | (Returned a, s') => f a s'
       | (Thrown e, s') => (Thrown e, s')
       end.
Definition try_catch {A} (m : M A) (h : Exn → M A) : M A :=
  λ s, match m s with
       | (Returned a, s') => (Returned a, s')
       | (Thrown e, s') => h e s'
       end.
Definition modify (f : State → State) : M unit := λ s, (Returned tt, f s).
Definition gets {A} (f : State → A) : M A := λ s, (Returned (f s), s).

Notation "'let!' x ':=' m 'in' k" := (bind m (λ x, k))
  (at level 10, x name, m at level 100, k at level 200, only parsing).
Notation "'do!' m 'in' k" := (bind m (λ _, k))
  (at level 10, m at level 100, k at level 200, only parsing).

Definition await {A} (r : Reply A) : M A :=
  match r with
  | Ok a => ret a
  | Err e => throw e
  end.

(** The state a computation leaves behind. *)
Definition exec {A} (m : M A) (s : State) : State := snd (m s).

(** ** The record store (lines 86-97) *)

Definition getExtension (id : string) (s : State) : option VSXExtension :=
  extensions s !! id.

Definition setExtension (id : string) : M VSXExtension := λ s,
  match extensions s !! id with
  | Some extension => (Returned extension, s)
  | None =>
      let extension := extensionFactory id in
      (Returned extension, set_extensions (<[id := extension]> (extensions s)) s)
  end.

(** [extension.update(d)] where [extension] is the object that the store
    holds under [id].  The source mutates that object in place, and no entry
    of [extensions] is ever replaced or deleted, so every reference obtained
    from [setExtension(id)] or [getExtension(id)] is the entry under [id]. *)
Definition update_at (id : string) (d : gmap string Value) : M unit :=
  modify (λ s, set_extensions (alter (update d) id (extensions s)) s).

(** [this.setExtension(id).update(d)] *)
Definition upsert (id : string) (d : gmap string Value) : M VSXExtension :=
  let! extension := setExtension id in
  do! update_at id d in
  ret (update d extension).

(** The effect of [setExtension] and of [upsert] on the store alone. *)
Definition store_ensure (id : string) (m : gmap string VSXExtension)
  : gmap string VSXExtension :=
  match m !! id with
  | Some _ => m
  | None => <[id := extensionFactory id]> m
  end.

Definition store_upsert (id : string) (d : gmap string Value)
    (m : gmap string VSXExtension) : gmap string VSXExtension :=
  alter (update d) id (store_ensure id m).

(** ** Emitters, console, tokens *)

Definition onDidChangeEmitter_fire : M unit :=
  modify (λ s, set_fired (fired s ++ [DidChange]) s).

Definition console_error (msg : string) (e : Exn) : M unit :=
  modify (λ s, set_console (console s ++ [(msg, e)]) s).

(** Modelled from the spec: [CancellationTokenSource] and
    [CancellationToken] (@theia/core) are not among the sources.  A token is
    the token of a source, or [CancellationToken.None], which is never
    cancelled; cancelling a source marks its token for good. *)
Definition isCancellationRequested (token : option nat) (s : State) : bool :=
  match token with
  | Some t => bool_decide (t ∈ cancelled s)
  | None => false
  end.

(** [this.searchCancellationTokenSource.cancel()] *)
Definition searchCancellationTokenSource_cancel : M unit :=
  modify (λ s, set_tokens (searchCancellationTokenSource s)
                 ({[searchCancellationTokenSource s]} ∪ cancelled s) (fresh s) s).

(** [this.searchCancellationTokenSource = new CancellationTokenSource()] *)
Definition searchCancellationTokenSource_new : M unit :=
  modify (λ s, set_tokens (fresh s) (cancelled s) (S (fresh s)) s).

Definition suspend (k : Suspended) : M unit :=
  modify (λ s, set_suspended (suspended s ++ [k]) s).

Definition settle (x : Settlement) (s : State) : State :=
  set_settled (settled s ++ [x]) s.

(** ** [doChange] (lines 99-113)

    Modelled from the spec: [ProgressService.withProgress] (@theia/core) is
    not among the sources.  It runs the callback it is handed, at a time of
    its choosing, and passes on its result or its exception.

    The callback checks the token, awaits the task, checks the token again
    and fires the change event.  The first check is [doChange_enter], the
    part after [await task()] is [doChange_exit].  The continuation of
    [await task()] runs in the turn in which the task finishes (only
    timers, host events and replies of collaborators start a turn), so the
    last segment of a task and [doChange_exit] form one segment. *)
Definition doChange_enter (token : option nat) : M bool :=
  gets (λ s, negb (isCancellationRequested token s)).

Definition doChange_exit {A} (token : option nat) (result : A) : M (option A) :=
  let! c := gets (isCancellationRequested token) in
  if (c : bool) then ret None
  else do! onDidChangeEmitter_fire in ret (Some result).

(** ** The search cycle (lines 115-135) *)

(** The quiescence window handed to [debounce]. *)
Definition wait : nat := 150.
Arguments wait : simpl never.

(** Modelled from the spec: [debounce] is the third-party p-debounce.  A
    call of the debounced function restarts the window; the wrapped function
    runs once the window has elapsed with no further call. *)
Definition updateSearchResult : M unit :=
  modify (set_timer (Some wait)).

(** [doUpdateSearchResult(param, token)] up to the hand-over of the
    [doChange] callback to [withProgress]. *)
Definition doUpdateSearchResult (param : string) (token : nat) : M unit :=
  do! modify (λ s, set_cycles (cycles s ++ [(param, token)]) s) in
  suspend (ProgressSearch param token).

(** The function wrapped by [debounce] (lines 117-119). *)
Definition updateSearchResult_body : M unit :=
  do! searchCancellationTokenSource_cancel in
  do! searchCancellationTokenSource_new in
  let! query := gets _query in
  let! token := gets searchCancellationTokenSource in
  doUpdateSearchResult query token.

(** The [doChange] callback of a search cycle starts: line 103, then the
    task up to [await this.api.search(param)]. *)
Definition search_begin (param : string) (token : nat) (s : State) : State :=
  if isCancellationRequested (Some token) s
  then settle (Fulfilled (OpSearch token) None) s
  else exec (suspend (AwaitSearch param token)) s.

(** The loop of lines 128-132. *)
Fixpoint search_loop (result : list VSXSearchEntry) (searchResult : list string)
  : M (list string) :=
  match result with
  | [] => ret searchResult
  | data :: rest =>
      let id := entry_id data in
      let! _ := upsert id (entry_data data) in
      search_loop rest (Set_add id searchResult)
  end.

(** The task of [doUpdateSearchResult] from line 123 on, once
    [api.search] has settled with [r]. *)
Definition search_task (token : nat) (r : Reply (list VSXSearchEntry)) : M unit :=
  let! result := await r in
  let! c := gets (isCancellationRequested (Some token)) in
  if (c : bool) then ret tt
  else
    let! searchResult := search_loop result [] in
    modify (set_searchResult searchResult).

(** The rest of the search cycle: the task, then lines 107-111. *)
Definition search_resume (token : nat) (r : Reply (list VSXSearchEntry))
  : M (option unit) :=
  let! result := search_task token r in
  doChange_exit (Some token) result.

(** ** The query property (lines 59-69) *)

(** [onDidChangeQueryEmitter.fire(q)]: the event is delivered, and the
    listener that [init] registered calls [updateSearchResult]. *)
Definition onDidChangeQueryEmitter_fire (q : string) : M unit :=
  do! modify (λ s, set_fired (fired s ++ [DidChangeQuery q]) s) in
  updateSearchResult.

Definition query_set (query : string) : M unit :=
  let! current := gets _query in
  if bool_decide (current = query) then ret tt
  else
    do! modify (set_query query) in
    let! q := gets _query in
    onDidChangeQueryEmitter_fire q.

(** ** [refresh] (lines 194-211) *)

(** [refresh(id)] up to [await this.api.getExtension(id)], as called by
    [updateInstalled]. *)
Definition refresh_call (id : string) : M unit :=
  suspend (AwaitRefresh id).

(** [refresh(id)] once [api.getExtension(id)] has settled with [r]. *)
Definition refresh_resume (id : string) (r : Reply (gmap string Value))
  : M (option VSXExtension) :=
  try_catch
    (let! data := await r in
     let! extension := upsert id data in
     ret (Some extension))
    (λ e,
       if isNotFound e then
         let! extension := gets (getExtension id) in
         match extension with
         | Some ext => if installed ext then ret (Some ext) else ret None
         | None => ret None
         end
       else
         do! console_error ("[" +:+ id +:+ "]: failed to refresh, reason:") e in
         ret None).

(** ** [updateInstalled] (lines 138-158) *)

(** The loop of lines 143-151. *)
Fixpoint updateInstalled_plugins (ps : list Plugin) (installed : list string)
  : M (list string) :=
  match ps with
  | [] => ret installed
  | plugin :: rest =>
      if bool_decide (model_engine_type plugin = "vscode") then
        let id := model_id plugin in
        do! modify (λ s, set_installed (Set_delete id (_installed s)) s) in
        let! extension := setExtension id in
        let installed' := Set_add (ext_id extension) installed in
        do! refresh_call id in
        updateInstalled_plugins rest installed'
      else updateInstalled_plugins rest installed
  end.

(** The loop of lines 152-154. *)
Fixpoint refresh_each (ids : list string) : M unit :=
  match ids with
  | [] => ret tt
  | id :: rest => do! refresh_call id in refresh_each rest
  end.

(** The task of [updateInstalled].  [Promise.all(refreshing)] is not
    awaited, so the task does not suspend. *)
Definition updateInstalled_task : M unit :=
  let! plugins := gets plugins in
  let! installed := updateInstalled_plugins plugins [] in
  let! previous := gets _installed in
  do! refresh_each previous in
  modify (set_installed installed).

(** The [doChange] callback of [updateInstalled], run by [withProgress]. *)
Definition updateInstalled_run : M (option unit) :=
  let! go := doChange_enter None in
  if (go : bool) then
    let! result := updateInstalled_task in
    doChange_exit None result
  else ret None.

(** ** [resolve] (lines 160-179) *)

(** The task of [resolve] from line 162 on, once the [api.getExtension]
    call of its [refresh] has settled with [r]: either the task goes on to
    await the readme, or it returns the record. *)
Definition resolve_refreshed (id : string) (r : Reply (gmap string Value))
  : M (Suspended + VSXExtension) :=
  let! extension := refresh_resume id r in
  match extension with
  | None => throw (Error ("Failed to resolve " +:+ id +:+ " extension."))
  | Some ext =>
      match readmeUrl ext with
      | Some url => ret (inl (AwaitReadme id url))
      | None => ret (inr ext)
      end
  end.

(** Options of [new showdown.Converter(...)] (lines 182-186). *)
Record ConverterOptions := mkConverterOptions {
  noHeaderId : bool;
  strikethrough : bool;
  headerLevelStart : nat
}.

(** The markdown pipeline: showdown's [makeHtml], [sanitize-html] and its
    default tag allow-list.  Both are third-party; both calls may throw. *)
Record MarkdownPipeline := mkMarkdownPipeline {
  makeHtml : ConverterOptions → string → Reply string;
  sanitize : string → list string → Reply string;
  sanitize_defaults_allowedTags : list string
}.

(** [compileReadme] (lines 181-192); [Err] when a call throws. *)
Definition compileReadme (md : MarkdownPipeline) (readmeMarkdown : string)
  : Reply string :=
  match makeHtml md (mkConverterOptions true true 2) readmeMarkdown with
  | Ok readmeHtml =>
      sanitize md readmeHtml
        (sanitize_defaults_allowedTags md ++ ["h1"; "h2"; "img"])
  | Err e => Err e
  end.

(** The task of [resolve] from line 168 on, once [api.fetchText] has
    settled with [r].  [return extension] yields the entry under [id]. *)
Definition resolve_readme (md : MarkdownPipeline) (id : string)
    (r : Reply string) : M (option VSXExtension) :=
  do! try_catch
        (let! rawReadme := await r in
         let! readme := await (compileReadme md rawReadme) in
         update_at id {[ "readme" := VString readme ]})
        (λ e,
           if negb (isNotFound e) then
             console_error ("[" +:+ id +:+ "]: failed to compile readme, reason:") e
           else ret tt) in
  gets (getExtension id).

(** The exception that reaches the [catch] of lines 171-175, if any. *)
Definition readme_failure (md : MarkdownPipeline) (r : Reply string)
  : option Exn :=
  match r with
  | Err e => Some e
  | Ok rawReadme =>
      match compileReadme md rawReadme with
      | Err e => Some e
      | Ok _ => None
      end
  end.

(** ** The model as a transition system *)

(** What the outside world does to the model. *)
Inductive Answer :=
| Go
| Entries (r : Reply (list VSXSearchEntry))
| Detail (r : Reply (gmap string Value))
| Text (r : Reply string).

Inductive Input :=
| SetQuery (q : string)
| Tick
| PluginsChanged (ps : list Plugin)
| CallResolve (id : string)
| Resume (k : Suspended) (a : Answer).

(** Records how the promise of an operation settles. *)
Definition run_settle {A} (op : Op) (val : A → option VSXExtension)
    (m : M A) (s : State) : State :=
  match m s with
  | (Returned a, s') => settle (Fulfilled op (val a)) s'
  | (Thrown e, s') => settle (Rejected op e) s'
  end.

(** The [doChange] callback of [resolve] from line 162 on. *)
Definition resolve_step1 (id : string) (r : Reply (gmap string Value))
    (s : State) : State :=
  match resolve_refreshed id r s with
  | (Returned (inl k), s') => exec (suspend k) s'
  | (Returned (inr ext), s') =>
      run_settle (OpResolve id) (λ x, x) (doChange_exit None ext) s'
  | (Thrown e, s') => settle (Rejected (OpResolve id) e) s'
  end.

(** The [doChange] callback of [resolve] from line 168 on: the task, then
    lines 107-111. *)
Definition resolve_step2 (md : MarkdownPipeline) (id : string)
    (r : Reply string) : M (option VSXExtension) :=
  let! extension := resolve_readme md id r in
  let! result := doChange_exit None extension in
  ret (mjoin result).

(** The segment that a suspended operation runs on an answer; [None] when
    the answer is not of the awaited kind. *)
Definition resume (md : MarkdownPipeline) (k : Suspended) (a : Answer)
  : option (State → State) :=
  match k, a with
  | ProgressSearch param token, Go => Some (search_begin param token)
  | AwaitSearch param token, Entries r =>
      Some (run_settle (OpSearch token) (λ _, None) (search_resume token r))
  | ProgressInstalled, Go =>
      Some (run_settle OpInstalled (λ _, None) updateInstalled_run)
  | AwaitRefresh id, Detail r => Some (exec (refresh_resume id r))
  | ProgressResolve id, Go => Some (exec (suspend (AwaitResolveRefresh id)))
  | AwaitResolveRefresh id, Detail r => Some (resolve_step1 id r)
  | AwaitReadme id url, Text r =>
      Some (run_settle (OpResolve id) (λ x, x) (resolve_step2 md id r))
  | _, _ => None
  end.

(** One time unit passes; the debounced function runs when the window
    has elapsed. *)
Definition tick (s : State) : State :=
  match timer s with
  | None => s
  | Some (S (S n)) => set_timer (Some (S n)) s
  | Some _ => exec updateSearchResult_body (set_timer None s)
  end.

Definition step (md : MarkdownPipeline) (s : State) (i : Input) : State :=
  match i with
  | SetQuery q => exec (query_set q) s
  | Tick => tick s
  | PluginsChanged ps => exec (suspend ProgressInstalled) (set_plugins ps s)
  | CallResolve id => exec (suspend (ProgressResolve id)) s
  | Resume k a =>
      if bool_decide (k ∈ suspended s) then
        match resume md k a with
        | Some f => f (set_suspended (remove_first k (suspended s)) s)
        | None => s
        end
      else s
  end.

Definition run (md : MarkdownPipeline) (s : State) (inputs : list Input)
  : State :=
  foldl (step md) s inputs.

(** [init] (lines 50-57), on a fresh object: [updateInstalled()] hands its
    callback to [withProgress], [updateSearchResult()] starts the window. *)
Definition init (ps : list Plugin) : State :=
  let s0 := mkState "" ∅ [] [] 0 ∅ 1 ps None [] [] [] [] [] in
  exec (do! suspend ProgressInstalled in updateSearchResult) s0.

Inductive reachable (md : MarkdownPipeline) : State → Prop :=
| reachable_init ps : reachable md (init ps)
| reachable_step s i : reachable md s → reachable md (step md s i).

(** ** Invariants *)

(** Every record sits in the store under its own id. *)
Definition store_wf (s : State) : Prop :=
  map_Forall (λ k e, ext_id e = k) (extensions s).

(** The search token of a suspended search cycle. *)
Definition search_token (k : Suspended) : option nat :=
  match k with
  | ProgressSearch _ t | AwaitSearch _ t => Some t
  | _ => None
  end.

(** Sources are allocated in sequence; exactly the sources before the
    current one are cancelled; a suspended cycle holds a token that was
    allocated. *)
Definition tokens_wf (s : State) : Prop :=
  fresh s = S (searchCancellationTokenSource s) ∧
  (∀ t, t ∈ cancelled s ↔ t < searchCancellationTokenSource s) ∧
  (∀ k t, k ∈ suspended s → search_token k = Some t →
          t ≤ searchCancellationTokenSource s).

(** What every segment other than the start of a search cycle keeps: the
    store stays well-formed, the tokens stay as they are, and no search
    cycle is added to the suspended operations. *)
Definition evolves (s s' : State) : Prop :=
  (store_wf s → store_wf s') ∧
  searchCancellationTokenSource s' = searchCancellationTokenSource s ∧
  cancelled s' = cancelled s ∧
  fresh s' = fresh s ∧
  (∀ k t, k ∈ suspended s' → search_token k = Some t → k ∈ suspended s).

(** ** The effect of the loops on the sets and on the store *)

(** The search result set that the loop of lines 128-132 builds. *)
Definition search_ids (result : list VSXSearchEntry) (acc : list string)
  : list string :=
  foldl (λ a d, Set_add (entry_id d) a) acc result.

(** The store that the loop of lines 128-132 leaves. *)
Definition search_store (result : list VSXSearchEntry)
    (m : gmap string VSXExtension) : gmap string VSXExtension :=
  foldl (λ m d, store_upsert (entry_id d) (entry_data d) m) m result.

(** The ids that [updateInstalled] takes from the host: [plugin.model.id]
    of the plugins whose engine type is 'vscode', in the order of
    [pluginSupport.plugins]. *)
Definition vscode_ids (ps : list Plugin) : list string :=
  map model_id (filter (λ p, model_engine_type p = "vscode") ps).

(** The set [installed] that the loop of lines 143-151 builds from these
    ids, what the deletions of line 146 leave of the previous set, and
    the store after the calls of [setExtension]. *)
Definition installed_set (ids : list string) (acc : list string) : list string :=
  foldl (λ a id, Set_add id a) acc ids.

Definition remaining (ids : list string) (previous : list string) : list string :=
  foldl (λ l id, Set_delete id l) previous ids.

Definition ensure_all (ids : list string) (m : gmap string VSXExtension)
  : gmap string VSXExtension :=
  foldl (λ m id, store_ensure id m) m ids.

(** ** Bursts of writes to [query] *)




(** After a first write, each further write [(gap, q)] of a burst comes
    after the inputs [gap]: time passing, replies arriving, the host
    changing its plugins, [resolve] being called. *)
Definition burst_inputs (rest : list (list Input * string)) : list Input :=
  concat (map (λ w, w.1 ++ [SetQuery w.2]) rest).




(** ** Further invariants *)

(** Every record of [m] is still in [m'], under the same key and with the
    same id. *)
Definition store_le (m m' : gmap string VSXExtension) : Prop :=
  ∀ id e, m !! id = Some e → ∃ e', m' !! id = Some e' ∧ ext_id e' = ext_id e.

(** The two id sets hold no id twice, and every id they hold has a
    record. *)
Definition lists_wf (s : State) : Prop :=
  NoDup (_installed s) ∧
  NoDup (_searchResult s) ∧
  (∀ id, id ∈ _installed s → is_Some (getExtension id s)) ∧
  (∀ id, id ∈ _searchResult s → is_Some (getExtension id s)).

(** A suspended search cycle whose token is not cancelled. *)
Definition is_live (s : State) (k : Suspended) : bool :=
  match search_token k with
  | Some t => negb (isCancellationRequested (Some t) s)
  | None => false
  end.

Definition live_cycles (s : State) : list Suspended :=
  filter (λ k, is_live s k = true) (suspended s).

(** The suspended search cycles that hold the token [t]. *)
Definition holders (t : nat) (l : list Suspended) : list Suspended :=
  filter (λ k, search_token k = Some t) l.

(** A segment that keeps the current source and only adds suspended
    operations that are no search cycles. *)
Definition appends (s s' : State) : Prop :=
  searchCancellationTokenSource s' = searchCancellationTokenSource s ∧
  ∃ extra, suspended s' = suspended s ++ extra ∧
           Forall (λ k, search_token k = None) extra.

(** * Concrete inputs *)

(** A markdown pipeline that renders nothing and never fails, and one
    whose converter always throws. *)
Definition plain : MarkdownPipeline :=
  mkMarkdownPipeline (λ _ markdown, Ok markdown) (λ html _, Ok html) [].
Definition broken : MarkdownPipeline :=
  mkMarkdownPipeline (λ _ _, Err (Error "showdown")) (λ html _, Ok html) [].

(** Two entries of a search reply; their ids are [acme.foo] and
    [acme.foobar]. *)
Definition acme_foo : VSXSearchEntry :=
  mkEntry "Acme" "Foo" {["version" := VString "1.0"]}.
Definition acme_foobar : VSXSearchEntry :=
  mkEntry "acme" "FooBar" ∅.

(** The query "foo" is written, the window elapses, and the search cycle
    (token 1) has called [api.search]. *)
Definition search_pending : State :=
  run plain (init [])
    ([SetQuery "foo"] ++ repeat Tick 150 ++ [Resume (ProgressSearch "foo" 1) Go]).

(** A cycle for "a" (token 1) has called [api.search]; then "b" is written,
    the cycle for "b" (token 2) starts, and its reply has already been
    processed.  The reply for "a" is still outstanding. *)
Definition two_cycles : State :=
  run plain (init [])
    ([SetQuery "a"] ++ repeat Tick 150 ++
     [Resume (ProgressSearch "a" 1) Go; SetQuery "b"] ++ repeat Tick 150 ++
     [Resume (ProgressSearch "b" 2) Go;
      Resume (AwaitSearch "b" 2) (Entries (Ok [acme_foobar]))]).

(** A cycle for "a" (token 1) is started, but [withProgress] has not run
    its callback when "b" is written and the cycle for "b" starts. *)
Definition late_callback : State :=
  run plain (init [])
    ([SetQuery "a"] ++ repeat Tick 150 ++ [SetQuery "b"] ++ repeat Tick 150).


(** The host reports one 'vscode' plugin and one of another engine. *)
Definition host_plugins : list Plugin :=
  [mkPlugin "acme.foo" "vscode"; mkPlugin "other.bar" "theiaPlugin"].

(** [resolve("acme.foo")] has fetched the detail, which names a readme,
    and awaits [api.fetchText]. *)
Definition acme_detail : gmap string Value :=
  {["readmeUrl" := VString "https://registry/acme/foo/README.md";
    "version" := VString "1.0"]}.
Definition awaiting_readme : State :=
  run plain (init [])
    [CallResolve "acme.foo"; Resume (ProgressResolve "acme.foo") Go;
     Resume (AwaitResolveRefresh "acme.foo") (Detail (Ok acme_detail))].

(** Two more writes after a first one: the second comes 10 time units
    later, while the reconciliation pass of [init] runs; the third comes 149
    time units after the second. *)
Definition typing_burst : list (list Input * string) :=
  [(repeat Tick 10 ++ [Resume ProgressInstalled Go], "fo");
   (repeat Tick 149, "foo")].

(** The reconciliation pass of [init] has run on [host_plugins]; the
    refresh of "acme.foo" is in flight. *)
Definition refresh_pending : State :=
  run plain (init host_plugins) [Resume ProgressInstalled Go].

Definition installed_record : VSXExtension :=
  mkExtension "acme.foo" {["installed" := VBool true; "version" := VString "1.0"]}.

(** A state whose store holds one record, marked installed. *)
Definition with_installed_record : State :=
  set_extensions {["acme.foo" := installed_record]} (init []).

(** * Properties *)

Section Properties.

Variable md : MarkdownPipeline.

(** ** Setters and the monad *)

Lemma set_extensions_id s : set_extensions (extensions s) s = s.
Proof. by destruct s. Qed.

Lemma bind_returned {A B} (m : M A) (f : A → M B) s a s' :
  m s = (Returned a, s') → bind m f s = f a s'.
Proof. unfold bind. by intros ->. Qed.

Lemma bind_thrown {A B} (m : M A) (f : A → M B) s e s' :
  m s = (Thrown e, s') → bind m f s = (Thrown e, s').
Proof. unfold bind. by intros ->. Qed.

(** ** The record store *)

Lemma setExtension_eq id s :
  setExtension id s =
    (Returned (default (extensionFactory id) (extensions s !! id)),
     set_extensions (store_ensure id (extensions s)) s).
Proof.
  unfold setExtension, store_ensure.
  destruct (extensions s !! id) as [e|] eqn:E; simpl; [|done].
  by rewrite set_extensions_id.
Qed.

Lemma lookup_store_ensure_eq id m :
  store_ensure id m !! id = Some (default (extensionFactory id) (m !! id)).
Proof.
  unfold store_ensure. destruct (m !! id) as [e|] eqn:E; simpl; [done|].
  by rewrite lookup_insert_eq.
Qed.

Lemma lookup_store_ensure_ne id id' m :
  id' ≠ id → store_ensure id m !! id' = m !! id'.
Proof.
  intros Hne. unfold store_ensure. destruct (m !! id); [done|].
  by rewrite lookup_insert_ne.
Qed.

Lemma lookup_store_upsert_eq id d m :
  store_upsert id d m !! id =
    Some (update d (default (extensionFactory id) (m !! id))).
Proof.
  unfold store_upsert. rewrite lookup_alter_eq, lookup_store_ensure_eq. done.
Qed.

Lemma lookup_store_upsert_ne id id' d m :
  id' ≠ id → store_upsert id d m !! id' = m !! id'.
Proof.
  intros Hne. unfold store_upsert.
  rewrite lookup_alter_ne; [|done]. by apply lookup_store_ensure_ne.
Qed.

Lemma upsert_eq id d s :
  upsert id d s =
    (Returned (update d (default (extensionFactory id) (extensions s !! id))),
     set_extensions (store_upsert id d (extensions s)) s).
Proof.
  unfold upsert. rewrite (bind_returned _ _ _ _ _ (setExtension_eq id s)).
  unfold update_at, bind, modify, ret, store_upsert. simpl. done.
Qed.

Lemma store_wf_ensure id m :
  map_Forall (λ k e, ext_id e = k) m →
  map_Forall (λ k e, ext_id e = k) (store_ensure id m).
Proof.
  intros Hwf. unfold store_ensure. destruct (m !! id); [done|].
  by apply map_Forall_insert_2.
Qed.

Lemma store_wf_upsert id d m :
  map_Forall (λ k e, ext_id e = k) m →
  map_Forall (λ k e, ext_id e = k) (store_upsert id d m).
Proof.
  intros Hwf k e. destruct (decide (k = id)) as [->|Hne].
  - rewrite lookup_store_upsert_eq. intros [= <-]. simpl.
    destruct (m !! id) as [e0|] eqn:E; simpl; [by apply (Hwf id)|done].
  - rewrite lookup_store_upsert_ne; [|done]. apply Hwf.
Qed.

Lemma store_wf_unique s k1 k2 e1 e2 :
  store_wf s →
  extensions s !! k1 = Some e1 → extensions s !! k2 = Some e2 →
  ext_id e1 = ext_id e2 → k1 = k2.
Proof.
  intros Hwf H1 H2 Heq.
  rewrite <- (Hwf _ _ H1), <- (Hwf _ _ H2). exact Heq.
Qed.

(** C3: upserting is a field-wise merge onto the one record of the id.
    Two partial updates [d1] and [d2] that cover different fields, applied
    to the same id one after the other, leave a single record under that
    id which carries every field of [d1] and every field of [d2]; a field
    that neither update provides keeps the value it had (or stays unset
    when the record was just created); records of other ids are untouched;
    and no two entries of the store ever share an id. *)
Theorem upsert_merges_fields (id : string) (d1 d2 : gmap string Value)
    (s : State) :
  d1 ##ₘ d2 → store_wf s →
  ∃ r s2,
    (do! upsert id d1 in upsert id d2) s = (Returned r, s2) ∧
    extensions s2 !! id = Some r ∧
    ext_id r = id ∧
    (∀ k v, d1 !! k = Some v → ext_data r !! k = Some v) ∧
    (∀ k v, d2 !! k = Some v → ext_data r !! k = Some v) ∧
    (∀ k, d1 !! k = None → d2 !! k = None →
          ext_data r !! k = extensions s !! id ≫= λ e, ext_data e !! k) ∧
    (∀ id', id' ≠ id → extensions s2 !! id' = extensions s !! id') ∧
    store_wf s2 ∧
    (∀ k1 k2 e1 e2,
       extensions s2 !! k1 = Some e1 → extensions s2 !! k2 = Some e2 →
       ext_id e1 = ext_id e2 → k1 = k2).
Proof.
  intros Hdisj Hwf.
  set (e0 := default (extensionFactory id) (extensions s !! id)).
  set (m2 := store_upsert id d2 (store_upsert id d1 (extensions s))).
  assert (Hrun : (do! upsert id d1 in upsert id d2) s =
            (Returned (update d2 (update d1 e0)), set_extensions m2 s)).
  { rewrite (bind_returned _ _ _ _ _ (upsert_eq id d1 s)).
    rewrite upsert_eq. simpl. rewrite lookup_store_upsert_eq. simpl.
    by destruct s. }
  assert (Hwf2 : store_wf (set_extensions m2 s)).
  { unfold store_wf. simpl. by do 2 apply store_wf_upsert. }
  exists (update d2 (update d1 e0)), (set_extensions m2 s).
  split; [exact Hrun|]. simpl. repeat split.
  - subst m2. by rewrite !lookup_store_upsert_eq.
  - subst e0. destruct (extensions s !! id) as [e|] eqn:E; simpl; [|done].
    by apply (Hwf id).
  - intros k v Hk. apply lookup_union_Some_raw. right. split.
    + by eapply map_disjoint_Some_l.
    + apply lookup_union_Some_raw. by left.
  - intros k v Hk. apply lookup_union_Some_raw. by left.
  - intros k H1 H2.
    rewrite lookup_union_r by done. rewrite lookup_union_r by done.
    subst e0. by destruct (extensions s !! id).
  - intros id' Hne. subst m2. by rewrite !lookup_store_upsert_ne.
  - exact Hwf2.
  - intros k1 k2 e1 e2. apply (store_wf_unique _ _ _ _ _ Hwf2).
Qed.

(** ** The query property and the debounce window *)

Lemma step_SetQuery_same q s :
  q = _query s → step md s (SetQuery q) = s.
Proof.
  intros ->. unfold step, exec, query_set, bind, gets. simpl.
  by rewrite bool_decide_eq_true_2.
Qed.

Lemma step_SetQuery_change q s :
  q ≠ _query s →
  step md s (SetQuery q) =
    set_timer (Some wait) (set_fired (fired s ++ [DidChangeQuery q]) (set_query q s)).
Proof.
  intros Hne. unfold step, exec, query_set, bind, gets. simpl.
  rewrite bool_decide_eq_false_2 by congruence. done.
Qed.

(** The setter never throws. *)
Lemma query_set_returns q s : fst (query_set q s) = Returned tt.
Proof. unfold query_set, bind, gets. simpl. by case_bool_decide. Qed.

(** C10: writing the current value to [query] changes nothing at all: no
    event, no restart of the debounce window, no search cycle.  Writing a
    different value stores it and fires exactly one query-change event
    with the new value; the listener of that event restarts the debounce
    window; the store, the installed set, the search result set, the
    tokens, the suspended operations and every other observation stay as
    they were.  The setter never throws. *)
Theorem query_setter_frame (q : string) (s : State) :
  fst (query_set q s) = Returned tt ∧
  let s' := step md s (SetQuery q) in
  if bool_decide (q = _query s) then s' = s
  else
    _query s' = q ∧
    fired s' = fired s ++ [DidChangeQuery q] ∧
    timer s' = Some wait ∧
    extensions s' = extensions s ∧
    _installed s' = _installed s ∧
    _searchResult s' = _searchResult s ∧
    searchCancellationTokenSource s' = searchCancellationTokenSource s ∧
    cancelled s' = cancelled s ∧
    fresh s' = fresh s ∧
    plugins s' = plugins s ∧
    suspended s' = suspended s ∧
    console s' = console s ∧
    cycles s' = cycles s ∧
    settled s' = settled s.
Proof.
  split; [apply query_set_returns|].
  cbv zeta. case_bool_decide as Hq.
  - by apply step_SetQuery_same.
  - rewrite step_SetQuery_change by done. simpl. by repeat split.
Qed.

(** ** The search cycle *)

Lemma search_loop_eq result : ∀ acc s,
  search_loop result acc s =
    (Returned (search_ids result acc),
     set_extensions (search_store result (extensions s)) s).
Proof.
  induction result as [|d result IH]; intros acc s.
  - unfold search_ids, search_store. simpl. unfold ret.
    by rewrite set_extensions_id.
  - cbn [search_loop].
    rewrite (bind_returned _ _ _ _ _ (upsert_eq _ _ s)), IH.
    by destruct s.
Qed.

(** A search cycle whose token is cancelled drops a successful reply. *)
Lemma search_resume_cancelled_ok t entries s :
  isCancellationRequested (Some t) s = true →
  search_resume t (Ok entries) s = (Returned None, s).
Proof.
  intros Hc. unfold search_resume, search_task, doChange_exit, bind, gets, await, ret.
  rewrite Hc. cbv beta iota. by rewrite Hc.
Qed.

(** A rejection of [api.search] passes through the task and [doChange]. *)
Lemma search_resume_err t e s :
  search_resume t (Err e) s = (Thrown e, s).
Proof. reflexivity. Qed.

(** A search cycle whose token is live commits a successful reply. *)
Lemma search_resume_live t entries s :
  isCancellationRequested (Some t) s = false →
  search_resume t (Ok entries) s =
    (Returned (Some tt),
     set_fired (fired s ++ [DidChange])
       (set_searchResult (search_ids entries [])
          (set_extensions (search_store entries (extensions s)) s))).
Proof.
  intros Hc.
  unfold search_resume, search_task, doChange_exit, bind, gets, await, ret.
  rewrite Hc. cbv beta iota. rewrite search_loop_eq.
  unfold modify, onDidChangeEmitter_fire. cbv beta iota.
  change (isCancellationRequested (Some t) (set_searchResult _ (set_extensions _ s)))
    with (isCancellationRequested (Some t) s).
  by rewrite Hc.
Qed.

Lemma elem_of_Set_add x y l : y ∈ Set_add x l ↔ y = x ∨ y ∈ l.
Proof.
  unfold Set_add. case_bool_decide as Hx.
  - split; [by right|]. intros [->|?]; done.
  - rewrite elem_of_app, list_elem_of_singleton. tauto.
Qed.

Lemma NoDup_Set_add x l : NoDup l → NoDup (Set_add x l).
Proof.
  intros Hnd. unfold Set_add. case_bool_decide as Hx; [done|].
  apply NoDup_app. split; [done|]. split.
  - intros y Hy ->%list_elem_of_singleton. done.
  - apply NoDup_singleton.
Qed.

Lemma elem_of_search_ids result : ∀ acc x,
  x ∈ search_ids result acc ↔ x ∈ acc ∨ x ∈ map entry_id result.
Proof.
  induction result as [|d result IH]; intros acc x.
  - unfold search_ids. simpl. rewrite elem_of_nil. tauto.
  - unfold search_ids. cbn [foldl map]. fold (search_ids result (Set_add (entry_id d) acc)).
    rewrite IH, elem_of_Set_add, elem_of_cons. tauto.
Qed.

Lemma NoDup_search_ids result : ∀ acc,
  NoDup acc → NoDup (search_ids result acc).
Proof.
  induction result as [|d result IH]; intros acc Hnd; [done|].
  unfold search_ids. cbn [foldl]. apply IH. by apply NoDup_Set_add.
Qed.

Lemma search_store_app l1 l2 m :
  search_store (l1 ++ l2) m = search_store l2 (search_store l1 m).
Proof. apply foldl_app. Qed.

Lemma store_wf_search_store result : ∀ m,
  map_Forall (λ k e, ext_id e = k) m →
  map_Forall (λ k e, ext_id e = k) (search_store result m).
Proof.
  induction result as [|d result IH]; intros m Hwf; [done|].
  unfold search_store. cbn [foldl]. apply IH. by apply store_wf_upsert.
Qed.




(** ** [refresh] *)

Lemma refresh_resume_ok id data s :
  refresh_resume id (Ok data) s =
    (Returned (Some (update data (default (extensionFactory id) (extensions s !! id)))),
     set_extensions (store_upsert id data (extensions s)) s).
Proof.
  unfold refresh_resume, try_catch, await.
  unfold bind at 1. unfold ret at 1.
  by rewrite (bind_returned _ _ _ _ _ (upsert_eq id data s)).
Qed.

Lemma refresh_resume_not_found id e s :
  isNotFound e = true →
  refresh_resume id (Err e) s =
    (Returned (match extensions s !! id with
               | Some ext => if installed ext then Some ext else None
               | None => None
               end), s).
Proof.
  intros He. unfold refresh_resume, try_catch, await, bind, throw, gets, getExtension.
  rewrite He. destruct (extensions s !! id) as [ext|]; [|done].
  by destruct (installed ext).
Qed.

Lemma refresh_resume_error id e s :
  isNotFound e = false →
  refresh_resume id (Err e) s =
    (Returned None,
     set_console (console s ++ [("[" +:+ id +:+ "]: failed to refresh, reason:", e)]) s).
Proof.
  intros He. unfold refresh_resume, try_catch, await, bind, throw.
  by rewrite He.
Qed.

(** ** [updateInstalled] *)

Lemma refresh_each_eq ids : ∀ s,
  refresh_each ids s =
    (Returned tt, set_suspended (suspended s ++ map AwaitRefresh ids) s).
Proof.
  induction ids as [|id ids IH]; intros s.
  - cbn [refresh_each map]. rewrite app_nil_r. unfold ret. by destruct s.
  - cbn [refresh_each]. unfold bind, refresh_call, suspend, modify.
    rewrite IH. cbn [map suspended set_suspended]. rewrite <- app_assoc.
    by destruct s.
Qed.

Lemma store_wf_ensure_all ids : ∀ m,
  map_Forall (λ k e, ext_id e = k) m →
  map_Forall (λ k e, ext_id e = k) (ensure_all ids m).
Proof.
  induction ids as [|id ids IH]; intros m Hwf; [done|].
  unfold ensure_all. cbn [foldl]. apply IH. by apply store_wf_ensure.
Qed.

Lemma updateInstalled_plugins_eq ps : ∀ acc s,
  store_wf s →
  updateInstalled_plugins ps acc s =
    (Returned (installed_set (vscode_ids ps) acc),
     set_suspended (suspended s ++ map AwaitRefresh (vscode_ids ps))
       (set_extensions (ensure_all (vscode_ids ps) (extensions s))
          (set_installed (remaining (vscode_ids ps) (_installed s)) s))).
Proof.
  induction ps as [|p ps IH]; intros acc s Hwf.
  - unfold vscode_ids. cbn [updateInstalled_plugins filter map list_filter].
    unfold installed_set, remaining, ensure_all. cbn [foldl map].
    rewrite app_nil_r. unfold ret. by destruct s.
  - cbn [updateInstalled_plugins]. unfold vscode_ids.
    case_bool_decide as Hp.
    + rewrite filter_cons_True by done. cbn [map].
      fold (vscode_ids ps).
      unfold bind at 1. unfold modify at 1.
      rewrite (bind_returned _ _ _ _ _ (setExtension_eq _ _)).
      unfold bind at 1. unfold refresh_call, suspend, modify.
      cbn [extensions set_installed set_extensions].
      assert (Hid : ext_id (default (extensionFactory (model_id p))
                              (extensions s !! model_id p)) = model_id p).
      { destruct (extensions s !! model_id p) as [e|] eqn:E; [|done].
        by apply (Hwf (model_id p)). }
      rewrite Hid. rewrite IH.
      * unfold installed_set, remaining, ensure_all.
        cbn [foldl map suspended set_suspended set_extensions set_installed
             extensions _installed].
        rewrite <- app_assoc. by destruct s.
      * unfold store_wf. cbn [extensions set_suspended set_extensions set_installed].
        by apply store_wf_ensure.
    + rewrite filter_cons_False by done. fold (vscode_ids ps). by apply IH.
Qed.

(** The whole pass is one segment: the installed set is replaced while
    every refresh it has issued is still suspended. *)
Lemma updateInstalled_run_eq s :
  store_wf s →
  updateInstalled_run s =
    (Returned (Some tt),
     set_fired (fired s ++ [DidChange])
       (set_installed (installed_set (vscode_ids (plugins s)) [])
          (set_suspended
             (suspended s ++ map AwaitRefresh (vscode_ids (plugins s)) ++
                map AwaitRefresh (remaining (vscode_ids (plugins s)) (_installed s)))
             (set_extensions (ensure_all (vscode_ids (plugins s)) (extensions s)) s)))).
Proof.
  intros Hwf.
  unfold updateInstalled_run, doChange_enter, doChange_exit, updateInstalled_task.
  unfold bind at 1. unfold gets at 1. cbn [isCancellationRequested negb].
  unfold bind at 1. unfold bind at 1. unfold gets at 1.
  rewrite (bind_returned _ _ _ _ _ (updateInstalled_plugins_eq _ _ _ Hwf)).
  unfold bind at 1. unfold gets at 1.
  unfold bind at 1. rewrite refresh_each_eq.
  unfold modify, bind, gets, onDidChangeEmitter_fire, ret.
  cbn [isCancellationRequested _installed suspended set_suspended
       set_extensions set_installed fired].
  rewrite <- app_assoc. by destruct s.
Qed.

Lemma elem_of_installed_set ids : ∀ acc x,
  x ∈ installed_set ids acc ↔ x ∈ acc ∨ x ∈ ids.
Proof.
  induction ids as [|id ids IH]; intros acc x.
  - unfold installed_set. simpl. rewrite elem_of_nil. tauto.
  - unfold installed_set. cbn [foldl]. fold (installed_set ids (Set_add id acc)).
    rewrite IH, elem_of_Set_add, elem_of_cons. tauto.
Qed.

Lemma NoDup_installed_set ids : ∀ acc,
  NoDup acc → NoDup (installed_set ids acc).
Proof.
  induction ids as [|id ids IH]; intros acc Hnd; [done|].
  unfold installed_set. cbn [foldl]. apply IH. by apply NoDup_Set_add.
Qed.

Lemma elem_of_vscode_ids ps id :
  id ∈ vscode_ids ps ↔
  ∃ p, p ∈ ps ∧ model_engine_type p = "vscode" ∧ model_id p = id.
Proof.
  unfold vscode_ids. rewrite list_elem_of_fmap. split.
  - intros (p & -> & Hp). apply list_elem_of_filter in Hp as [Ht Hp]. by exists p.
  - intros (p & Hp & Ht & <-). exists p. split; [done|].
    by apply list_elem_of_filter.
Qed.

Lemma elem_of_remaining ids : ∀ previous x,
  x ∈ remaining ids previous ↔ x ∈ previous ∧ x ∉ ids.
Proof.
  induction ids as [|id ids IH]; intros previous x.
  - unfold remaining. simpl. rewrite elem_of_nil. tauto.
  - unfold remaining. cbn [foldl]. fold (remaining ids (Set_delete id previous)).
    rewrite IH. unfold Set_delete. rewrite list_elem_of_filter, not_elem_of_cons.
    tauto.
Qed.

Lemma ensure_all_keeps ids : ∀ m id e,
  m !! id = Some e → ensure_all ids m !! id = Some e.
Proof.
  induction ids as [|i ids IH]; intros m id e Hm; [done|].
  unfold ensure_all. cbn [foldl]. apply IH.
  destruct (decide (id = i)) as [->|Hne].
  - rewrite lookup_store_ensure_eq, Hm. done.
  - by rewrite lookup_store_ensure_ne.
Qed.

Lemma ensure_all_creates ids : ∀ m id,
  id ∈ ids → is_Some (ensure_all ids m !! id).
Proof.
  induction ids as [|i ids IH]; intros m id Hid; [by apply elem_of_nil in Hid|].
  unfold ensure_all. cbn [foldl]. fold (ensure_all ids (store_ensure i m)).
  apply elem_of_cons in Hid as [->|Hid]; [|by apply IH].
  eexists. apply ensure_all_keeps, lookup_store_ensure_eq.
Qed.

(** ** Invariants of the reachable states *)

Lemma evolves_refl s : evolves s s.
Proof. by repeat split. Qed.

Lemma evolves_trans s1 s2 s3 : evolves s1 s2 → evolves s2 s3 → evolves s1 s3.
Proof.
  intros (Hw1 & Hs1 & Hc1 & Hf1 & Hk1) (Hw2 & Hs2 & Hc2 & Hf2 & Hk2).
  repeat split; [tauto|congruence|congruence|congruence|].
  intros k t Hk Ht. eapply Hk1; [|done]. by eapply Hk2.
Qed.

Lemma elem_of_remove_first k x l : x ∈ remove_first k l → x ∈ l.
Proof.
  induction l as [|y l IH]; cbn [remove_first]; [done|].
  case_decide; rewrite !elem_of_cons; [tauto|]. intros [->|?]; tauto.
Qed.

Lemma elem_of_refreshes k t l ids :
  k ∈ l ++ map AwaitRefresh ids → search_token k = Some t → k ∈ l.
Proof.
  rewrite elem_of_app, list_elem_of_fmap. intros [?|(id & -> & _)]; [done|].
  discriminate.
Qed.

Lemma evolves_search_resume t r s : evolves s (exec (search_resume t r) s).
Proof.
  unfold exec. destruct r as [entries|e].
  - destruct (isCancellationRequested (Some t) s) eqn:Hc.
    + rewrite search_resume_cancelled_ok by done. apply evolves_refl.
    + rewrite search_resume_live by done.
      repeat split; try done. unfold store_wf. simpl.
      apply store_wf_search_store.
  - rewrite search_resume_err. apply evolves_refl.
Qed.

Lemma evolves_refresh_resume id r s : evolves s (exec (refresh_resume id r) s).
Proof.
  unfold exec. destruct r as [data|e].
  - rewrite refresh_resume_ok. repeat split; try done.
    unfold store_wf. simpl. apply store_wf_upsert.
  - destruct (isNotFound e) eqn:He.
    + rewrite refresh_resume_not_found by done. apply evolves_refl.
    + rewrite refresh_resume_error by done. by repeat split.
Qed.

Lemma evolves_updateInstalled_run s :
  store_wf s → evolves s (exec updateInstalled_run s).
Proof.
  intros Hwf. unfold exec. rewrite updateInstalled_run_eq by done.
  repeat split; try done.
  - intros _. unfold store_wf. simpl. by apply store_wf_ensure_all.
  - simpl. intros k t Hk Ht. rewrite app_assoc in Hk.
    do 2 (eapply elem_of_refreshes in Hk; [|done]). done.
Qed.

Lemma evolves_settle x s : evolves s (settle x s).
Proof. by repeat split. Qed.

Lemma evolves_suspend k s :
  search_token k = None → evolves s (exec (suspend k) s).
Proof.
  intros Hk. repeat split; try done. simpl. intros k' t Hk' Ht.
  apply elem_of_app in Hk' as [?|Hk']; [done|].
  apply list_elem_of_singleton in Hk' as ->. congruence.
Qed.

Lemma evolves_run_settle {A} op (val : A → option VSXExtension) (m : M A) s :
  evolves s (exec m s) → evolves s (run_settle op val m s).
Proof.
  unfold run_settle, exec. destruct (m s) as [[a|e] s']; simpl; intros H;
    (eapply evolves_trans; [exact H|apply evolves_settle]).
Qed.

(** ** [resolve] *)

Lemma doChange_exit_None {A} (a : A) s :
  doChange_exit None a s =
    (Returned (Some a), set_fired (fired s ++ [DidChange]) s).
Proof. reflexivity. Qed.

(** [refresh] never throws. *)
Lemma refresh_resume_returns id r s :
  ∃ v s', refresh_resume id r s = (Returned v, s').
Proof.
  destruct r as [data|e].
  - rewrite refresh_resume_ok. eauto.
  - destruct (isNotFound e) eqn:He.
    + rewrite refresh_resume_not_found by done. eauto.
    + rewrite refresh_resume_error by done. eauto.
Qed.

Lemma resolve_refreshed_eq id r s v s1 :
  refresh_resume id r s = (Returned v, s1) →
  resolve_refreshed id r s =
    match v with
    | None => (Thrown (Error ("Failed to resolve " +:+ id +:+ " extension.")), s1)
    | Some ext =>
        match readmeUrl ext with
        | Some url => (Returned (inl (AwaitReadme id url)), s1)
        | None => (Returned (inr ext), s1)
        end
    end.
Proof.
  intros Hr. unfold resolve_refreshed.
  rewrite (bind_returned _ _ _ _ _ Hr).
  destruct v as [ext|]; [|done]. by destruct (readmeUrl ext).
Qed.

(** The readme was fetched and rendered: it is merged into the record. *)
Lemma resolve_readme_ok id raw html s :
  compileReadme md raw = Ok html →
  resolve_readme md id (Ok raw) s =
    (Returned (alter (update {["readme" := VString html]}) id (extensions s) !! id),
     set_extensions (alter (update {["readme" := VString html]}) id (extensions s)) s).
Proof.
  intros Hc. unfold resolve_readme, try_catch, await, bind, ret.
  rewrite Hc. reflexivity.
Qed.

(** The fetch or the rendering failed: the record is left as it is. *)
Lemma resolve_readme_failed id r e s :
  readme_failure md r = Some e →
  resolve_readme md id r s =
    (Returned (extensions s !! id),
     if isNotFound e then s
     else set_console
            (console s ++ [("[" +:+ id +:+ "]: failed to compile readme, reason:", e)]) s).
Proof.
  intros Hf. unfold resolve_readme, try_catch, await, bind, ret, throw.
  destruct r as [raw|e']; cbn [readme_failure] in Hf.
  - destruct (compileReadme md raw) as [html|e'] eqn:Hc; [done|].
    injection Hf as ->. by destruct (isNotFound e).
  - injection Hf as ->. by destruct (isNotFound e).
Qed.

Lemma readme_failure_None r :
  readme_failure md r = None →
  ∃ raw html, r = Ok raw ∧ compileReadme md raw = Ok html.
Proof.
  destruct r as [raw|e]; cbn [readme_failure]; [|done].
  destruct (compileReadme md raw) as [html|e] eqn:Hc; [|done]. eauto.
Qed.

Lemma store_wf_alter_update d id (m : gmap string VSXExtension) :
  map_Forall (λ k e, ext_id e = k) m →
  map_Forall (λ k e, ext_id e = k) (alter (update d) id m).
Proof.
  intros Hwf k e. destruct (decide (k = id)) as [->|Hne].
  - rewrite lookup_alter_eq. destruct (m !! id) as [e0|] eqn:E; simpl; [|done].
    intros [= <-]. exact (Hwf id e0 E).
  - rewrite lookup_alter_ne by done. apply Hwf.
Qed.

Lemma evolves_resolve_readme id r s : evolves s (exec (resolve_readme md id r) s).
Proof.
  unfold exec. destruct (readme_failure md r) as [e|] eqn:Hf.
  - rewrite (resolve_readme_failed _ _ _ _ Hf). simpl.
    destruct (isNotFound e); by repeat split.
  - apply readme_failure_None in Hf as (raw & html & -> & Hc).
    rewrite (resolve_readme_ok _ _ _ _ Hc). repeat split; try done.
    unfold store_wf. simpl. apply store_wf_alter_update.
Qed.

Lemma evolves_resolve_step2 id r s : evolves s (exec (resolve_step2 md id r) s).
Proof.
  pose proof (evolves_resolve_readme id r s) as H.
  unfold exec, resolve_step2, bind in *.
  destruct (resolve_readme md id r s) as [[v|e] s1]; [|done].
  rewrite doChange_exit_None. simpl in *.
  eapply evolves_trans; [exact H|]. by repeat split.
Qed.

Lemma evolves_resolve_step1 id r s : evolves s (resolve_step1 id r s).
Proof.
  pose proof (evolves_refresh_resume id r s) as H.
  destruct (refresh_resume_returns id r s) as (v & s1 & Hr).
  unfold resolve_step1. rewrite (resolve_refreshed_eq _ _ _ _ _ Hr).
  unfold exec in H. rewrite Hr in H. simpl in H.
  destruct v as [ext|].
  - destruct (readmeUrl ext) as [url|].
    + eapply evolves_trans; [exact H|]. by apply evolves_suspend.
    + eapply evolves_trans; [exact H|]. apply evolves_run_settle.
      unfold exec. rewrite doChange_exit_None. by repeat split.
  - eapply evolves_trans; [exact H|]. apply evolves_settle.
Qed.

Lemma tokens_wf_evolves s s' : evolves s s' → tokens_wf s → tokens_wf s'.
Proof.
  intros (_ & Hs & Hc & Hf & Hk) (Hfresh & Hcanc & Hsusp).
  unfold tokens_wf. rewrite Hs, Hc, Hf. repeat split; try done.
  - by apply Hcanc.
  - by apply Hcanc.
  - intros k t Hin Ht. eapply Hsusp; [|done]. by eapply Hk.
Qed.

Lemma evolves_remove k s :
  evolves s (set_suspended (remove_first k (suspended s)) s).
Proof.
  repeat split; try done. simpl. intros k' t Hk' _.
  by eapply elem_of_remove_first.
Qed.

(** The start of a search cycle: the current source is cancelled, a new
    one is allocated, and the cycle holds the token of the new one. *)
Lemma fire_invariant s :
  store_wf s → tokens_wf s →
  store_wf (exec updateSearchResult_body (set_timer None s)) ∧
  tokens_wf (exec updateSearchResult_body (set_timer None s)).
Proof.
  intros Hwf (Hfresh & Hcanc & Hsusp). split; [done|].
  unfold tokens_wf. simpl. rewrite Hfresh. repeat split.
  - rewrite elem_of_union, elem_of_singleton, Hcanc. lia.
  - rewrite elem_of_union, elem_of_singleton, Hcanc. lia.
  - intros k t Hk Ht. apply elem_of_app in Hk as [Hk|Hk].
    + specialize (Hsusp _ _ Hk Ht). lia.
    + apply list_elem_of_singleton in Hk as ->. simpl in Ht.
      injection Ht as <-. lia.
Qed.

Lemma step_invariant s i :
  store_wf s → tokens_wf s → store_wf (step md s i) ∧ tokens_wf (step md s i).
Proof.
  intros Hwf Htok.
  assert (Hev : ∀ s', evolves s s' → store_wf s' ∧ tokens_wf s').
  { intros s' Hev. split; [by apply Hev|by eapply tokens_wf_evolves]. }
  destruct i as [q| |ps|id|k a]; cbn [step].
  - destruct (decide (q = _query s)) as [Hq|Hq].
    + change (exec (query_set q) s) with (step md s (SetQuery q)).
      by rewrite step_SetQuery_same.
    + change (exec (query_set q) s) with (step md s (SetQuery q)).
      rewrite step_SetQuery_change by done. apply Hev. by repeat split.
  - unfold tick. destruct (timer s) as [[|[|n]]|].
    + by apply fire_invariant.
    + by apply fire_invariant.
    + apply Hev. by repeat split.
    + done.
  - apply Hev. eapply evolves_trans; [|by apply evolves_suspend].
    by repeat split.
  - apply Hev. by apply evolves_suspend.
  - case_bool_decide as Hin; [|done].
    pose proof (evolves_remove k s) as Hrm.
    set (s0 := set_suspended (remove_first k (suspended s)) s) in *.
    assert (Hev0 : ∀ s', evolves s0 s' → store_wf s' ∧ tokens_wf s').
    { intros s' H. apply Hev. by eapply evolves_trans. }
    destruct k, a; cbn [resume]; try done.
    + (* the callback of a search cycle starts *)
      unfold search_begin.
      destruct (isCancellationRequested (Some token) s0).
      * apply Hev0, evolves_settle.
      * split; [done|]. destruct Htok as (Hfresh & Hcanc & Hsusp).
        repeat split; try done; try apply Hcanc.
        simpl. intros k t Hk Ht.
        apply elem_of_app in Hk as [Hk|Hk].
        -- eapply Hsusp; [|done]. by eapply elem_of_remove_first.
        -- apply list_elem_of_singleton in Hk as ->. by eapply Hsusp.
    + apply Hev0, evolves_run_settle, evolves_search_resume.
    + apply Hev0, evolves_run_settle, evolves_updateInstalled_run. by apply Hrm.
    + apply Hev0, evolves_refresh_resume.
    + by apply Hev0, evolves_suspend.
    + apply Hev0, evolves_resolve_step1.
    + apply Hev0, evolves_run_settle, evolves_resolve_step2.
Qed.

Lemma init_invariant ps : store_wf (init ps) ∧ tokens_wf (init ps).
Proof.
  split; [done|]. repeat split; simpl.
  - intros Ht. by apply elem_of_empty in Ht.
  - lia.
  - intros k t Hk Ht. apply elem_of_cons in Hk as [->|Hk]; [done|].
    by apply elem_of_nil in Hk.
Qed.

Lemma reachable_invariant s : reachable md s → store_wf s ∧ tokens_wf s.
Proof.
  induction 1 as [ps|s i _ [Hwf Htok]].
  - apply init_invariant.
  - by apply step_invariant.
Qed.

Lemma reachable_run s inputs : reachable md s → reachable md (run md s inputs).
Proof.
  revert s. induction inputs as [|i inputs IH]; intros s Hs; [done|].
  apply IH. by constructor.
Qed.

Lemma search_store_is_Some result : ∀ (m : gmap string VSXExtension) id,
  is_Some (m !! id) → is_Some (search_store result m !! id).
Proof.
  induction result as [|d result IH]; intros m id Hm; [done|].
  unfold search_store. cbn [foldl]. apply IH.
  destruct (decide (id = entry_id d)) as [->|Hne].
  - rewrite lookup_store_upsert_eq. eauto.
  - by rewrite lookup_store_upsert_ne.
Qed.

Lemma search_store_exists result d (m : gmap string VSXExtension) :
  d ∈ result → is_Some (search_store result m !! entry_id d).
Proof.
  intros Hd. apply list_elem_of_split in Hd as (l1 & l2 & ->).
  rewrite search_store_app.
  change (search_store (d :: l2) ?m0)
    with (search_store l2 (store_upsert (entry_id d) (entry_data d) m0)).
  apply search_store_is_Some. rewrite lookup_store_upsert_eq. eauto.
Qed.

(** ** The claims about the search cycle *)

Lemma step_search_reply s param t r :
  AwaitSearch param t ∈ suspended s →
  step md s (Resume (AwaitSearch param t) (Entries r)) =
    run_settle (OpSearch t) (λ _, None) (search_resume t r)
      (set_suspended (remove_first (AwaitSearch param t) (suspended s)) s).
Proof. intros Hin. cbn [step resume]. by rewrite bool_decide_eq_true_2. Qed.

(** In a reachable state, a suspended search cycle that does not hold the
    token of the current source holds a cancelled token. *)
Lemma superseded_is_cancelled s k t :
  reachable md s → k ∈ suspended s → search_token k = Some t →
  t ≠ searchCancellationTokenSource s →
  isCancellationRequested (Some t) s = true.
Proof.
  intros Hr Hk Ht Hne.
  destruct (reachable_invariant s Hr) as (_ & _ & Hcanc & Hsusp).
  specialize (Hsusp _ _ Hk Ht). simpl. apply bool_decide_eq_true_2, Hcanc. lia.
Qed.


(** C1: in every reachable state, the reply to a search cycle that a newer
    cycle has superseded (the cycle awaits [api.search] and its token is
    not the token of the current source) has no effect, whether the reply
    is a result or a failure and whatever has happened since, the reply
    of the newer cycle included: no record of the store changes, the
    search result set is not replaced, and no event is fired; the
    installed set, the query and the console stay as they were too. *)
Theorem superseded_search_reply_has_no_effect (s : State) (param : string)
    (t : nat) (r : Reply (list VSXSearchEntry)) :
  reachable md s →
  AwaitSearch param t ∈ suspended s →
  t ≠ searchCancellationTokenSource s →
  let s' := step md s (Resume (AwaitSearch param t) (Entries r)) in
  extensions s' = extensions s ∧
  _searchResult s' = _searchResult s ∧
  fired s' = fired s ∧
  _installed s' = _installed s ∧
  _query s' = _query s ∧
  console s' = console s.
Proof.
  intros Hr Hin Hne. cbv zeta. rewrite step_search_reply by done.
  pose proof (superseded_is_cancelled s _ t Hr Hin eq_refl Hne) as Hc.
  unfold run_settle. destruct r as [entries|e].
  - rewrite search_resume_cancelled_ok by exact Hc. by repeat split.
  - rewrite search_resume_err. by repeat split.
Qed.

(** C2 (what the code does): when [api.search] rejects with [e], nothing
    in the search cycle catches it.  The task of [doUpdateSearchResult]
    throws [e], [doChange] lets it pass, and the promise of the cycle is
    rejected with [e]; nothing is written to the console.  The store, the
    search result set and the events are left as they were. *)
Theorem search_failure_is_not_caught (t : nat) (e : Exn) (s : State) :
  search_resume t (Err e) s = (Thrown e, s) ∧
  let s' := run_settle (OpSearch t) (λ _, None) (search_resume t (Err e)) s in
  settled s' = settled s ++ [Rejected (OpSearch t) e] ∧
  console s' = console s ∧
  extensions s' = extensions s ∧
  _searchResult s' = _searchResult s ∧
  fired s' = fired s.
Proof. by repeat split. Qed.


(** X2: A search cycle that is superseded before [withProgress] runs its
    callback returns at line 103-105: it never calls [api.search], changes
    nothing and fires nothing. *)
Theorem superseded_cycle_is_not_started (s : State) (param : string) (t : nat) :
  reachable md s →
  ProgressSearch param t ∈ suspended s →
  t ≠ searchCancellationTokenSource s →
  let s' := step md s (Resume (ProgressSearch param t) Go) in
  suspended s' = remove_first (ProgressSearch param t) (suspended s) ∧
  settled s' = settled s ++ [Fulfilled (OpSearch t) None] ∧
  extensions s' = extensions s ∧
  _searchResult s' = _searchResult s ∧
  fired s' = fired s.
Proof.
  intros Hr Hin Hne. cbv zeta. cbn [step resume].
  rewrite bool_decide_eq_true_2 by done.
  pose proof (superseded_is_cancelled s _ t Hr Hin eq_refl Hne) as Hc.
  unfold search_begin.
  change (isCancellationRequested (Some t) (set_suspended _ s))
    with (isCancellationRequested (Some t) s).
  rewrite Hc. by repeat split.
Qed.

(** X1: In every reachable state no two entries of the store share an id: a
    record sits under its own id, so two entries with the same id are the
    same entry. *)
Theorem one_record_per_id (s : State) (k1 k2 : string) (e1 e2 : VSXExtension) :
  reachable md s →
  extensions s !! k1 = Some e1 → extensions s !! k2 = Some e2 →
  ext_id e1 = ext_id e2 →
  k1 = k2 ∧ e1 = e2.
Proof.
  intros Hr H1 H2 Heq. destruct (reachable_invariant s Hr) as (Hwf & _).
  assert (k1 = k2) as -> by (by eapply store_wf_unique).
  split; [done|]. congruence.
Qed.

(** ** The claim about [updateInstalled] *)

(** C4: a reconciliation pass is one uninterrupted segment.  When the
    callback of [updateInstalled] has run, the installed set holds exactly
    the ids of the plugins that the host reports with engine type
    'vscode', once each.  Every refresh that the pass has issued, for
    these ids and for the previously installed ids that are no longer
    reported, is still suspended at that point; no record that existed
    has changed, a record exists for every reported id, and one change
    event has been fired. *)
Theorem installed_set_replaced (s : State) :
  store_wf s →
  ProgressInstalled ∈ suspended s →
  let s' := step md s (Resume ProgressInstalled Go) in
  (∀ id, id ∈ _installed s' ↔
         ∃ p, p ∈ plugins s ∧ model_engine_type p = "vscode" ∧ model_id p = id) ∧
  NoDup (_installed s') ∧
  suspended s' =
    remove_first ProgressInstalled (suspended s) ++
    map AwaitRefresh (vscode_ids (plugins s)) ++
    map AwaitRefresh (remaining (vscode_ids (plugins s)) (_installed s)) ∧
  (∀ id, id ∈ _installed s' → AwaitRefresh id ∈ suspended s') ∧
  (∀ id, id ∈ _installed s → id ∉ _installed s' → AwaitRefresh id ∈ suspended s') ∧
  (∀ id ext, extensions s !! id = Some ext → extensions s' !! id = Some ext) ∧
  (∀ id, id ∈ _installed s' → is_Some (extensions s' !! id)) ∧
  fired s' = fired s ++ [DidChange] ∧
  settled s' = settled s ++ [Fulfilled OpInstalled None].
Proof.
  intros Hwf Hin. cbv zeta. cbn [step resume].
  rewrite bool_decide_eq_true_2 by done.
  unfold run_settle. rewrite updateInstalled_run_eq by done.
  cbn [settle _installed suspended extensions fired settled plugins
       set_settled set_fired set_installed set_suspended set_extensions].
  assert (Hmem : ∀ id, id ∈ installed_set (vscode_ids (plugins s)) [] ↔
                       id ∈ vscode_ids (plugins s)).
  { intros id. rewrite elem_of_installed_set, elem_of_nil. tauto. }
  split; [|split; [|split; [|split; [|split; [|split; [|split; [|split]]]]]]].
  - intros id. by rewrite Hmem, elem_of_vscode_ids.
  - apply NoDup_installed_set, NoDup_nil_2.
  - done.
  - intros id Hid%Hmem. rewrite !elem_of_app. right. left.
    apply list_elem_of_fmap. by exists id.
  - intros id Hold Hnew. rewrite !elem_of_app. right. right.
    apply list_elem_of_fmap. exists id. split; [done|].
    apply elem_of_remaining. split; [done|]. by rewrite <- Hmem.
  - intros id ext. apply ensure_all_keeps.
  - intros id Hid%Hmem. by apply ensure_all_creates.
  - done.
  - done.
Qed.

(** ** The claims about [refresh] and [resolve] *)

(** C6: when [api.getExtension(id)] fails with a 404 response and the
    record of [id] is marked installed, [refresh(id)] returns that record
    and changes nothing; when the record is absent or not marked
    installed, the same 404 makes [refresh] return nothing, again without
    throwing, logging or changing anything; any other failure is written
    to the console and [refresh] returns nothing. *)
Theorem refresh_not_found_tolerance (id : string) (e : Exn) (s : State) :
  (∀ ext, isNotFound e = true → getExtension id s = Some ext →
          installed ext = true →
          refresh_resume id (Err e) s = (Returned (Some ext), s)) ∧
  (isNotFound e = true →
   (∀ ext, getExtension id s = Some ext → installed ext = false) →
   refresh_resume id (Err e) s = (Returned None, s)) ∧
  (isNotFound e = false →
   refresh_resume id (Err e) s =
     (Returned None,
      set_console (console s ++ [("[" +:+ id +:+ "]: failed to refresh, reason:", e)]) s)).
Proof.
  unfold getExtension. repeat split.
  - intros ext He Hext Hinst. rewrite refresh_resume_not_found by done.
    by rewrite Hext, Hinst.
  - intros He Hno. rewrite refresh_resume_not_found by done.
    destruct (extensions s !! id) as [ext|]; [|done].
    by rewrite (Hno ext eq_refl).
  - apply refresh_resume_error.
Qed.

Lemma refresh_resume_fired id r s :
  fired (exec (refresh_resume id r) s) = fired s.
Proof.
  unfold exec. destruct r as [data|e].
  - by rewrite refresh_resume_ok.
  - destruct (isNotFound e) eqn:He.
    + by rewrite refresh_resume_not_found.
    + by rewrite refresh_resume_error.
Qed.

Lemma updateInstalled_plugins_returns ps : ∀ acc s,
  ∃ acc' s', updateInstalled_plugins ps acc s = (Returned acc', s').
Proof.
  induction ps as [|p ps IH]; intros acc s; cbn [updateInstalled_plugins].
  - unfold ret. eauto.
  - case_bool_decide; [|apply IH].
    unfold bind at 1. unfold modify at 1.
    rewrite (bind_returned _ _ _ _ _ (setExtension_eq _ _)).
    unfold bind at 1. unfold refresh_call, suspend, modify. apply IH.
Qed.

(** [updateInstalled] never throws. *)
Lemma updateInstalled_run_returns s :
  ∃ v s', updateInstalled_run s = (Returned v, s').
Proof.
  unfold updateInstalled_run, doChange_enter, updateInstalled_task.
  unfold bind at 1. unfold gets at 1. cbn [isCancellationRequested negb].
  unfold bind at 1. unfold bind at 1. unfold gets at 1.
  destruct (updateInstalled_plugins_returns (plugins s) [] s) as (acc & s1 & H1).
  rewrite (bind_returned _ _ _ _ _ H1).
  unfold bind at 1. unfold gets at 1. unfold bind at 1.
  rewrite refresh_each_eq. unfold modify. rewrite doChange_exit_None. eauto.
Qed.

(** C7: whenever the [refresh] inside [resolve(id)] yields nothing,
    [resolve(id)] throws "Failed to resolve <id> extension.", its promise
    is rejected with that error, and no change event is fired.  The
    failure arises in [resolve] itself: [refresh], [updateInstalled] and
    the query setter always return. *)
Theorem resolve_fails_when_refresh_absent (id : string)
    (r : Reply (gmap string Value)) (s s1 : State) :
  refresh_resume id r s = (Returned None, s1) →
  resolve_refreshed id r s =
    (Thrown (Error ("Failed to resolve " +:+ id +:+ " extension.")), s1) ∧
  resolve_step1 id r s =
    settle (Rejected (OpResolve id)
              (Error ("Failed to resolve " +:+ id +:+ " extension."))) s1 ∧
  fired (resolve_step1 id r s) = fired s ∧
  (∀ id' r' s', ∃ v s'', refresh_resume id' r' s' = (Returned v, s'')) ∧
  (∀ s', ∃ v s'', updateInstalled_run s' = (Returned v, s'')) ∧
  (∀ q s', ∃ s'', query_set q s' = (Returned tt, s'')).
Proof.
  intros Hr.
  pose proof (resolve_refreshed_eq _ _ _ _ _ Hr) as Hres. cbv beta iota in Hres.
  pose proof (refresh_resume_fired id r s) as Hf.
  unfold exec in Hf. rewrite Hr in Hf. cbn [snd] in Hf.
  split; [exact Hres|]. split; [|split; [|split; [|split]]].
  - unfold resolve_step1. by rewrite Hres.
  - unfold resolve_step1. rewrite Hres. exact Hf.
  - apply refresh_resume_returns.
  - apply updateInstalled_run_returns.
  - intros q s'. pose proof (query_set_returns q s') as Hq.
    destruct (query_set q s') as [[[]|e] s'']; [eauto|done].
Qed.

(** C8: when the readme fetch of [resolve(id)] fails, or the rendering of
    the fetched text throws, [resolve] still succeeds: it returns the
    record of [id] exactly as the detail fetch left it (so a readme that
    was unset stays unset), leaves the store unchanged, and fires the
    change event.  A 404 response is swallowed without a trace; any other
    failure is written to the console. *)
Theorem resolve_tolerates_readme_failure (id : string) (r : Reply string)
    (e : Exn) (ext : VSXExtension) (s : State) :
  getExtension id s = Some ext →
  readme_failure md r = Some e →
  let s' := exec (resolve_step2 md id r) s in
  fst (resolve_step2 md id r s) = Returned (Some ext) ∧
  extensions s' = extensions s ∧
  getExtension id s' = Some ext ∧
  fired s' = fired s ++ [DidChange] ∧
  console s' =
    (if isNotFound e then console s
     else console s ++ [("[" +:+ id +:+ "]: failed to compile readme, reason:", e)]).
Proof.
  intros Hext Hfail. cbv zeta. unfold exec, resolve_step2.
  rewrite (bind_returned _ _ _ _ _ (resolve_readme_failed id r e s Hfail)).
  unfold getExtension in *. rewrite Hext.
  rewrite (bind_returned _ _ _ _ _ (doChange_exit_None _ _)).
  unfold ret. cbn [fst snd mjoin option_join].
  destruct (isNotFound e); by repeat split.
Qed.

(** ** The debounce window *)












Lemma run_cons s i l : run md s (i :: l) = run md (step md s i) l.
Proof. reflexivity. Qed.








(** ** Further properties of [refresh] and [resolve] *)

Lemma step_resume s k a f :
  k ∈ suspended s → resume md k a = Some f →
  step md s (Resume k a) = f (set_suspended (remove_first k (suspended s)) s).
Proof.
  intros Hin Hf. cbn [step]. rewrite bool_decide_eq_true_2 by done. by rewrite Hf.
Qed.

(** X3: The reply to a refresh that [updateInstalled] has issued is applied
    without notice.  A fetched detail is merged into the record of the id
    (created if absent); a failure leaves the store alone and is logged
    unless it is a 404.  No event is fired, no promise of the model settles,
    the two id sets and the records of other ids stay as they were. *)
Theorem refresh_reply_is_silent (s : State) (id : string)
    (r : Reply (gmap string Value)) :
  AwaitRefresh id ∈ suspended s →
  let s' := step md s (Resume (AwaitRefresh id) (Detail r)) in
  fired s' = fired s ∧
  settled s' = settled s ∧
  _installed s' = _installed s ∧
  _searchResult s' = _searchResult s ∧
  suspended s' = remove_first (AwaitRefresh id) (suspended s) ∧
  (∀ id', id' ≠ id → extensions s' !! id' = extensions s !! id') ∧
  match r with
  | Ok data =>
      extensions s' !! id =
        Some (update data (default (extensionFactory id) (extensions s !! id))) ∧
      console s' = console s
  | Err e =>
      extensions s' = extensions s ∧
      console s' =
        (if isNotFound e then console s
         else console s ++ [("[" +:+ id +:+ "]: failed to refresh, reason:", e)])
  end.
Proof.
  intros Hin. cbv zeta.
  rewrite (step_resume s (AwaitRefresh id) (Detail r) _ Hin eq_refl).
  unfold exec. destruct r as [data|e].
  - rewrite refresh_resume_ok. cbn [snd]. repeat split; try done.
    + intros id' Hne. by apply lookup_store_upsert_ne.
    + apply lookup_store_upsert_eq.
  - destruct (isNotFound e) eqn:He.
    + rewrite refresh_resume_not_found by done. by repeat split.
    + rewrite refresh_resume_error by done. by repeat split.
Qed.

(** X4: When the readme of [resolve(id)] is fetched and rendered, the rendered
    text is merged into the record as its [readme]: [resolve] returns the
    record with that field set and every other field as it was, the store
    holds the same record, the records of other ids are untouched, one
    change event is fired and nothing is logged. *)
Theorem resolve_stores_readme (id raw html : string) (ext : VSXExtension)
    (s : State) :
  getExtension id s = Some ext →
  compileReadme md raw = Ok html →
  let s' := exec (resolve_step2 md id (Ok raw)) s in
  let ext' := update {["readme" := VString html]} ext in
  fst (resolve_step2 md id (Ok raw) s) = Returned (Some ext') ∧
  getExtension id s' = Some ext' ∧
  ext_data ext' !! "readme" = Some (VString html) ∧
  (∀ k, k ≠ "readme" → ext_data ext' !! k = ext_data ext !! k) ∧
  (∀ id', id' ≠ id → getExtension id' s' = getExtension id' s) ∧
  fired s' = fired s ++ [DidChange] ∧
  console s' = console s.
Proof.
  intros Hext Hc. cbv zeta. unfold getExtension in *. unfold exec, resolve_step2.
  rewrite (bind_returned _ _ _ _ _ (resolve_readme_ok id raw html s Hc)).
  rewrite lookup_alter_eq, Hext. cbn [fmap option_fmap option_map].
  rewrite (bind_returned _ _ _ _ _ (doChange_exit_None _ _)).
  unfold ret. cbn [fst snd mjoin option_join extensions set_fired set_extensions
                   fired console].
  repeat split; try done.
  - by rewrite lookup_alter_eq, Hext.
  - cbn [update ext_data]. apply lookup_union_Some_raw. left.
    apply lookup_singleton_eq.
  - intros k Hk. cbn [update ext_data]. apply lookup_union_r.
    by apply lookup_singleton_ne.
  - intros id' Hne. by apply lookup_alter_ne.
Qed.

(** X5: What [resolve(id)] does once the detail is fetched.  The detail is
    merged into the record.  If the record then names a readme url, the
    task goes on to fetch it and nothing is fired yet; if it names none (or
    an empty one), [resolve] is fulfilled with the record at once and one
    change event is fired. *)
Theorem resolve_after_detail (id : string) (data : gmap string Value)
    (s : State) :
  let ext := update data (default (extensionFactory id) (extensions s !! id)) in
  let s' := resolve_step1 id (Ok data) s in
  extensions s' !! id = Some ext ∧
  console s' = console s ∧
  match readmeUrl ext with
  | Some url =>
      suspended s' = suspended s ++ [AwaitReadme id url] ∧
      fired s' = fired s ∧
      settled s' = settled s
  | None =>
      suspended s' = suspended s ∧
      fired s' = fired s ++ [DidChange] ∧
      settled s' = settled s ++ [Fulfilled (OpResolve id) (Some ext)]
  end.
Proof.
  cbv zeta. unfold resolve_step1.
  rewrite (resolve_refreshed_eq _ _ _ _ _ (refresh_resume_ok id data s)).
  destruct (readmeUrl _) as [url|].
  - cbn [exec snd suspend modify extensions set_suspended set_extensions console
         fired settled suspended].
    by rewrite lookup_store_upsert_eq.
  - unfold run_settle. rewrite doChange_exit_None.
    cbn [settle extensions set_settled set_fired set_extensions console fired
         settled suspended].
    by rewrite lookup_store_upsert_eq.
Qed.

(** ** The first search *)


(** ** Records are never removed *)

Lemma store_le_refl m : store_le m m.
Proof. intros id e He. by exists e. Qed.

Lemma store_le_trans m1 m2 m3 : store_le m1 m2 → store_le m2 m3 → store_le m1 m3.
Proof.
  intros H1 H2 id e He. destruct (H1 id e He) as (e1 & He1 & Hid1).
  destruct (H2 id e1 He1) as (e2 & He2 & Hid2). exists e2. split; [done|congruence].
Qed.

Lemma store_le_ensure id m : store_le m (store_ensure id m).
Proof.
  intros id' e He. exists e. split; [|done].
  destruct (decide (id' = id)) as [->|Hne].
  - by rewrite lookup_store_ensure_eq, He.
  - by rewrite lookup_store_ensure_ne.
Qed.

Lemma store_le_alter d id (m : gmap string VSXExtension) :
  store_le m (alter (update d) id m).
Proof.
  intros id' e He. destruct (decide (id' = id)) as [->|Hne].
  - exists (update d e). by rewrite lookup_alter_eq, He.
  - exists e. by rewrite lookup_alter_ne.
Qed.

Lemma store_le_upsert id d m : store_le m (store_upsert id d m).
Proof.
  eapply store_le_trans; [apply (store_le_ensure id)|apply store_le_alter].
Qed.

Lemma store_le_search_store result : ∀ m, store_le m (search_store result m).
Proof.
  induction result as [|d result IH]; intros m; [apply store_le_refl|].
  unfold search_store. cbn [foldl].
  eapply store_le_trans; [apply store_le_upsert|apply IH].
Qed.

Lemma store_le_ensure_all ids : ∀ m, store_le m (ensure_all ids m).
Proof.
  induction ids as [|id ids IH]; intros m; [apply store_le_refl|].
  unfold ensure_all. cbn [foldl].
  eapply store_le_trans; [apply store_le_ensure|apply IH].
Qed.

Lemma updateInstalled_plugins_store ps : ∀ acc s,
  extensions (exec (updateInstalled_plugins ps acc) s) =
    ensure_all (vscode_ids ps) (extensions s).
Proof.
  induction ps as [|p ps IH]; intros acc s; cbn [updateInstalled_plugins].
  - done.
  - unfold vscode_ids. case_bool_decide as Hp.
    + rewrite filter_cons_True by done. cbn [map]. fold (vscode_ids ps).
      unfold exec. unfold bind at 1. unfold modify at 1.
      rewrite (bind_returned _ _ _ _ _ (setExtension_eq _ _)).
      unfold bind at 1. unfold refresh_call, suspend, modify.
      etrans; [apply (IH _ _)|]. done.
    + rewrite filter_cons_False by done. fold (vscode_ids ps). apply IH.
Qed.

Lemma updateInstalled_run_store s :
  extensions (exec updateInstalled_run s) =
    ensure_all (vscode_ids (plugins s)) (extensions s).
Proof.
  pose proof (updateInstalled_plugins_store (plugins s) [] s) as H.
  destruct (updateInstalled_plugins_returns (plugins s) [] s) as (acc & s1 & H1).
  unfold exec in *. rewrite H1 in H. cbn [snd] in H.
  unfold updateInstalled_run, doChange_enter, updateInstalled_task.
  unfold bind at 1. unfold gets at 1. cbn [isCancellationRequested negb].
  unfold bind at 1. unfold bind at 1. unfold gets at 1.
  rewrite (bind_returned _ _ _ _ _ H1).
  unfold bind at 1. unfold gets at 1. unfold bind at 1.
  rewrite refresh_each_eq. unfold modify. rewrite doChange_exit_None.
  cbn [snd]. exact H.
Qed.

Lemma store_le_run_settle {A} op (val : A → option VSXExtension) (m : M A) s :
  extensions (run_settle op val m s) = extensions (exec m s).
Proof. unfold run_settle, exec. by destruct (m s) as [[a|e] s']. Qed.

Lemma store_le_search_resume t r s :
  store_le (extensions s) (extensions (exec (search_resume t r) s)).
Proof.
  unfold exec. destruct r as [entries|e].
  - destruct (isCancellationRequested (Some t) s) eqn:Hc.
    + rewrite search_resume_cancelled_ok by done. apply store_le_refl.
    + rewrite search_resume_live by done. apply store_le_search_store.
  - rewrite search_resume_err. apply store_le_refl.
Qed.

Lemma store_le_refresh_resume id r s :
  store_le (extensions s) (extensions (exec (refresh_resume id r) s)).
Proof.
  unfold exec. destruct r as [data|e].
  - rewrite refresh_resume_ok. apply store_le_upsert.
  - destruct (isNotFound e) eqn:He.
    + rewrite refresh_resume_not_found by done. apply store_le_refl.
    + rewrite refresh_resume_error by done. apply store_le_refl.
Qed.

Lemma resolve_step1_store id r s :
  extensions (resolve_step1 id r s) = extensions (exec (refresh_resume id r) s).
Proof.
  destruct (refresh_resume_returns id r s) as (v & s1 & Hr).
  unfold resolve_step1, exec. rewrite (resolve_refreshed_eq _ _ _ _ _ Hr), Hr.
  destruct v as [ext|]; [destruct (readmeUrl ext)|]; done.
Qed.

Lemma store_le_resolve_step2 id r s :
  store_le (extensions s) (extensions (exec (resolve_step2 md id r) s)).
Proof.
  unfold exec, resolve_step2, bind.
  destruct (readme_failure md r) as [e|] eqn:Hf.
  - rewrite (resolve_readme_failed _ _ _ _ Hf). rewrite doChange_exit_None.
    destruct (isNotFound e); apply store_le_refl.
  - apply readme_failure_None in Hf as (raw & html & -> & Hc).
    rewrite (resolve_readme_ok _ _ _ _ Hc). rewrite doChange_exit_None.
    apply store_le_alter.
Qed.

Lemma tick_store s : extensions (tick s) = extensions s.
Proof. unfold tick. by destruct (timer s) as [[|[|n]]|]. Qed.

Lemma query_set_store q s : extensions (exec (query_set q) s) = extensions s.
Proof.
  unfold exec, query_set, bind, gets. simpl. by case_bool_decide.
Qed.

Lemma store_le_step s i : store_le (extensions s) (extensions (step md s i)).
Proof.
  destruct i as [q| |ps|id|k a]; cbn [step].
  - rewrite query_set_store. apply store_le_refl.
  - rewrite tick_store. apply store_le_refl.
  - apply store_le_refl.
  - apply store_le_refl.
  - case_bool_decide as Hin; [|apply store_le_refl].
    set (s0 := set_suspended (remove_first k (suspended s)) s).
    change (extensions s) with (extensions s0).
    destruct k, a; cbn [resume]; try apply store_le_refl.
    + unfold search_begin.
      destruct (isCancellationRequested (Some token) s0); apply store_le_refl.
    + rewrite store_le_run_settle. apply store_le_search_resume.
    + rewrite store_le_run_settle, updateInstalled_run_store.
      apply store_le_ensure_all.
    + apply store_le_refresh_resume.
    + rewrite resolve_step1_store. apply store_le_refresh_resume.
    + rewrite store_le_run_settle. apply store_le_resolve_step2.
Qed.

(** X7: No input removes a record or moves it: a record that the store holds
    is still there, under the same key and with the same id, after any
    sequence of inputs. *)
Theorem records_are_never_removed (s : State) (inputs : list Input)
    (id : string) (e : VSXExtension) :
  getExtension id s = Some e →
  ∃ e', getExtension id (run md s inputs) = Some e' ∧ ext_id e' = ext_id e.
Proof.
  unfold getExtension. revert s e.
  induction inputs as [|i inputs IH]; intros s e He.
  - by exists e.
  - rewrite run_cons. destruct (store_le_step s i id e He) as (e1 & He1 & Hid1).
    destruct (IH _ _ He1) as (e2 & He2 & Hid2). exists e2.
    split; [done|congruence].
Qed.

(** ** The id sets and the store *)

Lemma lists_wf_keep s s' :
  _installed s' = _installed s → _searchResult s' = _searchResult s →
  store_le (extensions s) (extensions s') →
  lists_wf s → lists_wf s'.
Proof.
  intros Hi Hr Hle (Hn1 & Hn2 & H1 & H2). unfold lists_wf, getExtension in *.
  rewrite Hi, Hr. repeat split; [done|done| |].
  - intros id [e He]%H1. destruct (Hle id e He) as (e' & He' & _). eauto.
  - intros id [e He]%H2. destruct (Hle id e He) as (e' & He' & _). eauto.
Qed.

Lemma sets_run_settle {A} op (val : A → option VSXExtension) (m : M A) s :
  _installed (run_settle op val m s) = _installed (exec m s) ∧
  _searchResult (run_settle op val m s) = _searchResult (exec m s).
Proof. unfold run_settle, exec. by destruct (m s) as [[a|e] s']. Qed.

Lemma sets_refresh_resume id r s :
  _installed (exec (refresh_resume id r) s) = _installed s ∧
  _searchResult (exec (refresh_resume id r) s) = _searchResult s.
Proof.
  unfold exec. destruct r as [data|e].
  - by rewrite refresh_resume_ok.
  - destruct (isNotFound e) eqn:He.
    + by rewrite refresh_resume_not_found.
    + by rewrite refresh_resume_error.
Qed.

Lemma sets_resolve_step1 id r s :
  _installed (resolve_step1 id r s) = _installed s ∧
  _searchResult (resolve_step1 id r s) = _searchResult s.
Proof.
  pose proof (sets_refresh_resume id r s) as H.
  destruct (refresh_resume_returns id r s) as (v & s1 & Hr).
  unfold resolve_step1, exec in *. rewrite (resolve_refreshed_eq _ _ _ _ _ Hr).
  rewrite Hr in H. cbn [snd] in H.
  destruct v as [ext|]; [destruct (readmeUrl ext)|]; exact H.
Qed.

Lemma sets_resolve_step2 id r s :
  _installed (exec (resolve_step2 md id r) s) = _installed s ∧
  _searchResult (exec (resolve_step2 md id r) s) = _searchResult s.
Proof.
  unfold exec, resolve_step2, bind.
  destruct (readme_failure md r) as [e|] eqn:Hf.
  - rewrite (resolve_readme_failed _ _ _ _ Hf). rewrite doChange_exit_None.
    by destruct (isNotFound e).
  - apply readme_failure_None in Hf as (raw & html & -> & Hc).
    by rewrite (resolve_readme_ok _ _ _ _ Hc), doChange_exit_None.
Qed.

Lemma lists_wf_search_live entries s :
  lists_wf s →
  lists_wf (set_fired (fired s ++ [DidChange])
              (set_searchResult (search_ids entries [])
                 (set_extensions (search_store entries (extensions s)) s))).
Proof.
  intros (Hn1 & _ & H1 & _). unfold lists_wf, getExtension in *.
  cbn [_installed _searchResult extensions set_fired set_searchResult set_extensions].
  repeat split.
  - done.
  - apply NoDup_search_ids, NoDup_nil_2.
  - intros id [e He]%H1.
    destruct (store_le_search_store entries _ id e He) as (e' & He' & _). eauto.
  - intros id Hid. apply elem_of_search_ids in Hid as [Hid|Hid].
    + by apply elem_of_nil in Hid.
    + apply list_elem_of_fmap in Hid as (d & -> & Hd). by apply search_store_exists.
Qed.

Lemma lists_wf_step s i : store_wf s → lists_wf s → lists_wf (step md s i).
Proof.
  intros Hwf Hl.
  assert (Hkeep : ∀ s', _installed s' = _installed s →
            _searchResult s' = _searchResult s →
            extensions s' = extensions s → lists_wf s').
  { intros s' H1 H2 H3. apply (lists_wf_keep s); [done|done| |done].
    rewrite H3. apply store_le_refl. }
  destruct i as [q| |ps|id|k a]; cbn [step].
  - apply Hkeep; unfold exec, query_set, bind, gets; simpl; by case_bool_decide.
  - apply Hkeep; unfold tick; by destruct (timer s) as [[|[|n]]|].
  - by apply Hkeep.
  - by apply Hkeep.
  - case_bool_decide as Hin; [|done].
    set (s0 := set_suspended (remove_first k (suspended s)) s).
    assert (Hl0 : lists_wf s0) by by apply Hkeep.
    destruct k, a; cbn [resume]; try done.
    + unfold search_begin.
      destruct (isCancellationRequested (Some token) s0); by apply Hkeep.
    + unfold run_settle. destruct r as [entries|e].
      * destruct (isCancellationRequested (Some token) s0) eqn:Hc.
        -- rewrite search_resume_cancelled_ok by done. by apply Hkeep.
        -- rewrite search_resume_live by done.
           apply (lists_wf_keep
                    (set_fired (fired s0 ++ [DidChange])
                       (set_searchResult (search_ids entries [])
                          (set_extensions (search_store entries (extensions s0)) s0))));
             [done|done|apply store_le_refl|by apply lists_wf_search_live].
      * rewrite search_resume_err. by apply Hkeep.
    + unfold run_settle. rewrite updateInstalled_run_eq by done.
      destruct Hl0 as (_ & Hn2 & _ & H2). unfold lists_wf, getExtension in *.
      cbn [settle _installed _searchResult extensions set_settled set_fired
           set_installed set_suspended set_extensions].
      repeat split.
      * apply NoDup_installed_set, NoDup_nil_2.
      * done.
      * intros id Hid. apply elem_of_installed_set in Hid as [Hid|Hid].
        -- by apply elem_of_nil in Hid.
        -- by apply ensure_all_creates.
      * intros id [e He]%H2. exists e. by apply ensure_all_keeps.
    + destruct (sets_refresh_resume id r s0) as [H1 H2].
      apply (lists_wf_keep s0); [done|done|apply store_le_refresh_resume|done].
    + destruct (sets_resolve_step1 id r s0) as [H1 H2].
      apply (lists_wf_keep s0); [done|done| |done].
      rewrite resolve_step1_store. apply store_le_refresh_resume.
    + destruct (sets_run_settle (OpResolve id) (λ x, x) (resolve_step2 md id r) s0)
        as [H1 H2].
      destruct (sets_resolve_step2 id r s0) as [H3 H4].
      apply (lists_wf_keep s0); [congruence|congruence| |done].
      rewrite store_le_run_settle. apply store_le_resolve_step2.
Qed.

(** X8: In every reachable state, the installed set and the search result set
    hold no id twice, and [getExtension] finds a record for every id that
    either of them holds. *)
Theorem listed_ids_have_records (s : State) :
  reachable md s →
  NoDup (_installed s) ∧
  NoDup (_searchResult s) ∧
  (∀ id, id ∈ _installed s → is_Some (getExtension id s)) ∧
  (∀ id, id ∈ _searchResult s → is_Some (getExtension id s)).
Proof.
  induction 1 as [ps|s i Hr IH].
  - repeat split; try apply NoDup_nil_2; intros id Hid; by apply elem_of_nil in Hid.
  - apply lists_wf_step; [|exact IH]. by destruct (reachable_invariant s Hr).
Qed.

(** ** At most one live search cycle *)

Lemma holders_app t l1 l2 : holders t (l1 ++ l2) = holders t l1 ++ holders t l2.
Proof. apply filter_app. Qed.

Lemma holders_none t l :
  Forall (λ k, search_token k = None) l → holders t l = [].
Proof.
  induction 1 as [|k l Hk _ IH]; [done|].
  unfold holders. rewrite filter_cons_False by congruence. exact IH.
Qed.

Lemma holders_fresh t l :
  (∀ k t', k ∈ l → search_token k = Some t' → t' < t) → holders t l = [].
Proof.
  intros Hlt. destruct (holders t l) as [|k l'] eqn:E; [done|].
  assert (Hk : k ∈ holders t l) by (rewrite E; apply elem_of_cons; by left).
  unfold holders in Hk. apply list_elem_of_filter in Hk as [Ht Hk].
  specialize (Hlt _ _ Hk Ht). lia.
Qed.

Lemma holders_remove_first_le t k l :
  length (holders t (remove_first k l)) ≤ length (holders t l).
Proof.
  induction l as [|k' l IH]; cbn [remove_first]; [done|].
  unfold holders in *. case_decide as Hk.
  - rewrite (filter_cons _ k'). case_decide; cbn [length]; lia.
  - rewrite !(filter_cons _ k'). case_decide; cbn [length]; lia.
Qed.

Lemma holders_remove_first_eq t k l :
  k ∈ l → search_token k = Some t →
  S (length (holders t (remove_first k l))) = length (holders t l).
Proof.
  intros Hin Ht. induction l as [|k' l IH]; [by apply elem_of_nil in Hin|].
  cbn [remove_first]. unfold holders in *. case_decide as Hk.
  - subst k'. by rewrite filter_cons_True.
  - apply elem_of_cons in Hin as [Hin|Hin]; [done|].
    rewrite !(filter_cons _ k'). case_decide; cbn [length]; rewrite <- IH; done.
Qed.

Lemma appends_refl s : appends s s.
Proof. split; [done|]. exists []. by rewrite app_nil_r. Qed.

Lemma appends_trans s1 s2 s3 : appends s1 s2 → appends s2 s3 → appends s1 s3.
Proof.
  intros (Hs1 & x1 & Hx1 & Hf1) (Hs2 & x2 & Hx2 & Hf2). split; [congruence|].
  exists (x1 ++ x2). split.
  - by rewrite Hx2, Hx1, app_assoc.
  - by apply Forall_app.
Qed.

Lemma appends_same s s' :
  searchCancellationTokenSource s' = searchCancellationTokenSource s →
  suspended s' = suspended s → appends s s'.
Proof. intros H1 H2. split; [done|]. exists []. by rewrite app_nil_r. Qed.

Lemma appends_run_settle {A} op (val : A → option VSXExtension) (m : M A) s :
  appends s (exec m s) → appends s (run_settle op val m s).
Proof.
  unfold run_settle, exec. destruct (m s) as [[a|e] s']; cbn [snd]; intros H;
    (eapply appends_trans; [exact H|by apply appends_same]).
Qed.

Lemma appends_search_resume t r s : appends s (exec (search_resume t r) s).
Proof.
  unfold exec. destruct r as [entries|e].
  - destruct (isCancellationRequested (Some t) s) eqn:Hc.
    + rewrite search_resume_cancelled_ok by done. apply appends_refl.
    + rewrite search_resume_live by done. by apply appends_same.
  - rewrite search_resume_err. apply appends_refl.
Qed.

Lemma appends_refresh_resume id r s : appends s (exec (refresh_resume id r) s).
Proof.
  unfold exec. destruct r as [data|e].
  - rewrite refresh_resume_ok. by apply appends_same.
  - destruct (isNotFound e) eqn:He.
    + rewrite refresh_resume_not_found by done. apply appends_refl.
    + rewrite refresh_resume_error by done. by apply appends_same.
Qed.

Lemma appends_updateInstalled_run s :
  store_wf s → appends s (exec updateInstalled_run s).
Proof.
  intros Hwf. unfold exec. rewrite updateInstalled_run_eq by done.
  split; [done|]. eexists. split; [reflexivity|].
  apply Forall_app. split; apply Forall_forall; intros k Hk;
    apply list_elem_of_fmap in Hk as (id & -> & _); done.
Qed.

Lemma appends_suspend k s :
  search_token k = None → appends s (exec (suspend k) s).
Proof.
  intros Hk. split; [done|]. exists [k]. split; [done|]. by apply Forall_singleton.
Qed.

Lemma appends_resolve_step1 id r s : appends s (resolve_step1 id r s).
Proof.
  pose proof (appends_refresh_resume id r s) as H.
  destruct (refresh_resume_returns id r s) as (v & s1 & Hr).
  unfold resolve_step1. rewrite (resolve_refreshed_eq _ _ _ _ _ Hr).
  unfold exec in H. rewrite Hr in H. cbn [snd] in H.
  destruct v as [ext|]; [destruct (readmeUrl ext) as [url|]|];
    (eapply appends_trans; [exact H|]).
  - by apply appends_suspend.
  - apply appends_run_settle. unfold exec. rewrite doChange_exit_None.
    by apply appends_same.
  - by apply appends_same.
Qed.

Lemma appends_resolve_step2 id r s : appends s (exec (resolve_step2 md id r) s).
Proof.
  unfold exec, resolve_step2, bind.
  destruct (readme_failure md r) as [e|] eqn:Hf.
  - rewrite (resolve_readme_failed _ _ _ _ Hf). rewrite doChange_exit_None.
    destruct (isNotFound e); by apply appends_same.
  - apply readme_failure_None in Hf as (raw & html & -> & Hc).
    rewrite (resolve_readme_ok _ _ _ _ Hc). rewrite doChange_exit_None.
    by apply appends_same.
Qed.

Lemma one_holder_appends s s' :
  appends s s' →
  length (holders (searchCancellationTokenSource s) (suspended s)) ≤ 1 →
  length (holders (searchCancellationTokenSource s') (suspended s')) ≤ 1.
Proof.
  intros (Hs & extra & Hx & Hf) H. rewrite Hs, Hx, holders_app.
  by rewrite (holders_none _ extra Hf), app_nil_r.
Qed.

Lemma one_holder_step s i :
  store_wf s → tokens_wf s →
  length (holders (searchCancellationTokenSource s) (suspended s)) ≤ 1 →
  length (holders (searchCancellationTokenSource (step md s i))
            (suspended (step md s i))) ≤ 1.
Proof.
  intros Hwf (Hfresh & Hcanc & Hsusp) H.
  destruct i as [q| |ps|id|k a]; cbn [step].
  - apply (one_holder_appends s); [|done].
    apply appends_same; unfold exec, query_set, bind, gets; simpl; by case_bool_decide.
  - unfold tick. destruct (timer s) as [[|[|n]]|]; try done.
    all: cbn [exec snd updateSearchResult_body bind modify gets
              searchCancellationTokenSource_cancel searchCancellationTokenSource_new
              doUpdateSearchResult suspend searchCancellationTokenSource suspended
              set_tokens set_timer set_cycles set_suspended fresh _query].
    all: rewrite holders_app.
    all: assert (Hnone : holders (fresh s) (suspended s) = []);
      [|rewrite Hnone; unfold holders; by rewrite filter_cons_True].
    all: apply holders_fresh; intros k t' Hk Ht;
      specialize (Hsusp _ _ Hk Ht); lia.
  - apply (one_holder_appends s); [|done].
    eapply appends_trans; [|by apply appends_suspend]. by apply appends_same.
  - apply (one_holder_appends s); [|done]. by apply appends_suspend.
  - case_bool_decide as Hin; [|done].
    set (s0 := set_suspended (remove_first k (suspended s)) s).
    assert (H0 : length (holders (searchCancellationTokenSource s0) (suspended s0)) ≤ 1).
    { cbn [s0 searchCancellationTokenSource suspended set_suspended].
      eapply Nat.le_trans; [apply holders_remove_first_le|exact H]. }
    assert (Happ : ∀ s', appends s0 s' →
              length (holders (searchCancellationTokenSource s') (suspended s')) ≤ 1).
    { intros s' Hs'. by apply (one_holder_appends s0). }
    destruct k, a; cbn [resume]; try done.
    + unfold search_begin.
      destruct (isCancellationRequested (Some token) s0).
      * apply Happ. by apply appends_same.
      * cbn [exec snd suspend modify searchCancellationTokenSource suspended
             set_suspended s0].
        rewrite holders_app. unfold holders at 2.
        destruct (decide (token = searchCancellationTokenSource s)) as [->|Hne].
        -- rewrite filter_cons_True by done. cbn [filter list_filter].
           rewrite length_app. cbn [length].
           rewrite Nat.add_1_r.
           rewrite (holders_remove_first_eq (searchCancellationTokenSource s)
                      _ _ Hin eq_refl). exact H.
        -- rewrite filter_cons_False by (cbn; congruence). cbn [filter list_filter].
           rewrite app_nil_r. exact H0.
    + apply Happ, appends_run_settle, appends_search_resume.
    + apply Happ, appends_run_settle, appends_updateInstalled_run. exact Hwf.
    + apply Happ, appends_refresh_resume.
    + by apply Happ, appends_suspend.
    + apply Happ, appends_resolve_step1.
    + apply Happ, appends_run_settle, appends_resolve_step2.
Qed.

Lemma one_holder_reachable s :
  reachable md s →
  length (holders (searchCancellationTokenSource s) (suspended s)) ≤ 1.
Proof.
  induction 1 as [ps|s i Hr IH].
  - rewrite holders_none; [cbn [length]; lia|]. by repeat constructor.
  - destruct (reachable_invariant s Hr) as [Hwf Htok]. by apply one_holder_step.
Qed.

Lemma live_cycles_holders s :
  tokens_wf s →
  live_cycles s = holders (searchCancellationTokenSource s) (suspended s).
Proof.
  intros (_ & Hcanc & Hsusp). unfold live_cycles, holders.
  induction (suspended s) as [|k l IH]; [done|].
  assert (Hl : ∀ k' t, k' ∈ l → search_token k' = Some t →
                       t ≤ searchCancellationTokenSource s).
  { intros k' t Hk'. apply Hsusp. apply elem_of_cons. by right. }
  specialize (IH Hl).
  assert (Hk : is_live s k = true ↔
               search_token k = Some (searchCancellationTokenSource s)).
  { unfold is_live. destruct (search_token k) as [t|] eqn:Ht; [|done].
    assert (t ≤ searchCancellationTokenSource s)
      by (eapply Hsusp; [apply elem_of_cons; by left|done]).
    cbn [isCancellationRequested]. rewrite negb_true_iff, bool_decide_eq_false, Hcanc.
    split; [intros; f_equal; lia|intros [= ->]; lia]. }
  rewrite !(filter_cons _ k). do 2 case_decide; try tauto; by rewrite IH.
Qed.

(** X9: In every reachable state at most one suspended search cycle can still
    commit: at most one holds a token that is not cancelled, and that one
    holds the token of the current source. *)
Theorem at_most_one_live_cycle (s : State) :
  reachable md s →
  length (live_cycles s) ≤ 1 ∧
  ∀ k, k ∈ live_cycles s →
       search_token k = Some (searchCancellationTokenSource s).
Proof.
  intros Hr. destruct (reachable_invariant s Hr) as [_ Htok].
  rewrite (live_cycles_holders s Htok). split; [by apply one_holder_reachable|].
  intros k Hk. unfold holders in Hk. by apply list_elem_of_filter in Hk as [Hk _].
Qed.

(** ** The ids of search entries *)





End Properties.

(** * The properties on the concrete inputs *)

Example entry_id_acme_foo : entry_id acme_foo = "acme.foo".
Proof. reflexivity. Qed.

Example entry_id_acme_foobar : entry_id acme_foobar = "acme.foobar".
Proof. reflexivity. Qed.

Lemma superseded_search_reply_witness :
  reachable plain two_cycles ∧
  AwaitSearch "a" 1 ∈ suspended two_cycles ∧
  1 ≠ searchCancellationTokenSource two_cycles ∧
  let s' := step plain two_cycles
              (Resume (AwaitSearch "a" 1) (Entries (Ok [acme_foo]))) in
  extensions s' = extensions two_cycles ∧
  _searchResult s' = _searchResult two_cycles ∧
  fired s' = fired two_cycles ∧
  _installed s' = _installed two_cycles ∧
  _query s' = _query two_cycles ∧
  console s' = console two_cycles.
Proof.
  assert (H1 : reachable plain two_cycles)
    by apply reachable_run, reachable_init.
  assert (H2 : AwaitSearch "a" 1 ∈ suspended two_cycles)
    by (apply (bool_decide_unpack _); vm_compute; exact I).
  assert (H3 : 1 ≠ searchCancellationTokenSource two_cycles)
    by (vm_compute; discriminate).
  exact (conj H1 (conj H2 (conj H3
    (superseded_search_reply_has_no_effect plain
       two_cycles "a" 1 (Ok [acme_foo]) H1 H2 H3)))).
Defined.

(** The late reply for "a" leaves the result of the newer cycle in place. *)
Example superseded_search_reply_example :
  _searchResult (step plain two_cycles
                   (Resume (AwaitSearch "a" 1) (Entries (Ok [acme_foo]))))
  = ["acme.foobar"].
Proof. vm_compute. reflexivity. Qed.

Lemma search_failure_witness :
  search_resume 1 (Err (Error "ECONNREFUSED")) search_pending
  = (Thrown (Error "ECONNREFUSED"), search_pending).
Proof.
  exact (proj1 (search_failure_is_not_caught 1 (Error "ECONNREFUSED") search_pending)).
Defined.

(** The failed cycle ends as a rejected promise and an empty console. *)
Example search_failure_example :
  let s' := step plain search_pending
              (Resume (AwaitSearch "foo" 1) (Entries (Err (Error "ECONNREFUSED")))) in
  settled s' = [Rejected (OpSearch 1) (Error "ECONNREFUSED")] ∧ console s' = [].
Proof. vm_compute. done. Qed.

Lemma upsert_merges_fields_witness :
  ({["version" := VString "1.0"]} : gmap string Value)
    ##ₘ {["description" := VString "x"]} ∧
  store_wf (init []) ∧
  ∃ r s2,
    (do! upsert "acme.foo" {["version" := VString "1.0"]} in
     upsert "acme.foo" {["description" := VString "x"]}) (init [])
      = (Returned r, s2) ∧
    extensions s2 !! "acme.foo" = Some r ∧
    ext_data r !! "version" = Some (VString "1.0") ∧
    ext_data r !! "description" = Some (VString "x").
Proof.
  assert (H1 : ({["version" := VString "1.0"]} : gmap string Value)
                 ##ₘ {["description" := VString "x"]}).
  { apply map_disjoint_singleton_l_2. reflexivity. }
  assert (H2 : store_wf (init [])) by apply map_Forall_empty.
  split; [exact H1|]. split; [exact H2|].
  destruct (upsert_merges_fields "acme.foo" _ _ (init []) H1 H2)
    as (r & s2 & Hrun & Hr & _ & Hd1 & Hd2 & _).
  exists r, s2. split; [exact Hrun|]. split; [exact Hr|]. split.
  - apply Hd1. reflexivity.
  - apply Hd2. reflexivity.
Defined.

Lemma installed_set_replaced_witness :
  store_wf (init host_plugins) ∧
  ProgressInstalled ∈ suspended (init host_plugins) ∧
  let s' := step plain (init host_plugins)
              (Resume ProgressInstalled Go) in
  (∀ id, id ∈ _installed s' ↔
         ∃ p, p ∈ host_plugins ∧ model_engine_type p = "vscode" ∧ model_id p = id) ∧
  (∀ id, id ∈ _installed s' → AwaitRefresh id ∈ suspended s').
Proof.
  assert (H1 : store_wf (init host_plugins)) by apply map_Forall_empty.
  assert (H2 : ProgressInstalled ∈ suspended (init host_plugins))
    by (apply (bool_decide_unpack _); vm_compute; exact I).
  split; [exact H1|]. split; [exact H2|].
  destruct (installed_set_replaced plain
              (init host_plugins) H1 H2) as (Hset & _ & _ & Hpending & _).
  exact (conj Hset Hpending).
Defined.

(** The pass on [host_plugins]: the set is replaced, the refresh of the one
    reported id is in flight, and its record exists with just an id. *)
Example installed_set_replaced_example :
  let s' := step plain (init host_plugins)
              (Resume ProgressInstalled Go) in
  _installed s' = ["acme.foo"] ∧
  suspended s' = [AwaitRefresh "acme.foo"] ∧
  extensions s' !! "acme.foo" = Some (extensionFactory "acme.foo") ∧
  fired s' = [DidChange].
Proof. vm_compute. done. Qed.


(** The end-to-end run: "foo" is written, the window elapses, the search
    returns the two entries. *)
Example live_search_reply_example :
  let s' := step plain search_pending
              (Resume (AwaitSearch "foo" 1) (Entries (Ok [acme_foo; acme_foobar]))) in
  cycles search_pending = [("foo", 1)] ∧
  _searchResult s' = ["acme.foo"; "acme.foobar"] ∧
  extensions s' !! "acme.foo" =
    Some (mkExtension "acme.foo"
            {["publisher" := VString "Acme"; "name" := VString "Foo";
              "version" := VString "1.0"]}) ∧
  extensions s' !! "acme.foobar" =
    Some (mkExtension "acme.foobar"
            {["publisher" := VString "acme"; "name" := VString "FooBar"]}).
Proof. vm_compute. done. Qed.

Lemma refresh_not_found_witness :
  refresh_resume "acme.foo" (Err (VSXResponseError 404)) with_installed_record
    = (Returned (Some installed_record), with_installed_record) ∧
  refresh_resume "ghost.ext" (Err (VSXResponseError 404)) with_installed_record
    = (Returned None, with_installed_record) ∧
  refresh_resume "acme.foo" (Err (VSXResponseError 503)) with_installed_record
    = (Returned None,
       set_console [("[acme.foo]: failed to refresh, reason:", VSXResponseError 503)]
         with_installed_record).
Proof.
  split; [|split].
  - apply (proj1 (refresh_not_found_tolerance "acme.foo" (VSXResponseError 404)
                    with_installed_record) installed_record); reflexivity.
  - apply (proj1 (proj2 (refresh_not_found_tolerance "ghost.ext"
                           (VSXResponseError 404) with_installed_record)));
      [reflexivity|]. intros ext Hext. vm_compute in Hext. discriminate.
  - apply (proj2 (proj2 (refresh_not_found_tolerance "acme.foo"
                           (VSXResponseError 503) with_installed_record))).
    reflexivity.
Defined.

Lemma resolve_fails_witness :
  refresh_resume "ghost.ext" (Err (VSXResponseError 404)) (init [])
    = (Returned None, init []) ∧
  resolve_step1 "ghost.ext" (Err (VSXResponseError 404)) (init [])
    = settle (Rejected (OpResolve "ghost.ext")
                (Error "Failed to resolve ghost.ext extension.")) (init []) ∧
  fired (resolve_step1 "ghost.ext" (Err (VSXResponseError 404)) (init []))
    = fired (init []).
Proof.
  assert (H : refresh_resume "ghost.ext" (Err (VSXResponseError 404)) (init [])
              = (Returned None, init [])) by reflexivity.
  split; [exact H|].
  destruct (resolve_fails_when_refresh_absent "ghost.ext"
              (Err (VSXResponseError 404)) (init []) (init []) H)
    as (_ & Hstep & Hfired & _).
  exact (conj Hstep Hfired).
Defined.

Lemma resolve_readme_failure_witness :
  getExtension "acme.foo" awaiting_readme
    = Some (mkExtension "acme.foo" acme_detail) ∧
  readme_failure plain (Err (VSXResponseError 404))
    = Some (VSXResponseError 404) ∧
  let s' := exec (resolve_step2 plain "acme.foo"
                    (Err (VSXResponseError 404))) awaiting_readme in
  fst (resolve_step2 plain "acme.foo"
         (Err (VSXResponseError 404)) awaiting_readme)
    = Returned (Some (mkExtension "acme.foo" acme_detail)) ∧
  extensions s' = extensions awaiting_readme ∧
  getExtension "acme.foo" s' = Some (mkExtension "acme.foo" acme_detail) ∧
  fired s' = fired awaiting_readme ++ [DidChange] ∧
  console s' = console awaiting_readme.
Proof.
  assert (H1 : getExtension "acme.foo" awaiting_readme
               = Some (mkExtension "acme.foo" acme_detail))
    by (vm_compute; reflexivity).
  assert (H2 : readme_failure plain
                 (Err (VSXResponseError 404)) = Some (VSXResponseError 404))
    by reflexivity.
  exact (conj H1 (conj H2
    (resolve_tolerates_readme_failure plain
       "acme.foo" _ _ _ awaiting_readme H1 H2))).
Defined.

(** The same run when the text is fetched but showdown throws: [resolve]
    is fulfilled with the record, which has no readme, and the failure is
    on the console. *)
Example resolve_rendering_failure_example :
  let s' := step broken awaiting_readme
              (Resume (AwaitReadme "acme.foo" "https://registry/acme/foo/README.md")
                 (Text (Ok "# Foo"))) in
  suspended awaiting_readme =
    [ProgressInstalled; AwaitReadme "acme.foo" "https://registry/acme/foo/README.md"] ∧
  settled s' = [Fulfilled (OpResolve "acme.foo") (Some (mkExtension "acme.foo" acme_detail))] ∧
  console s' = [("[acme.foo]: failed to compile readme, reason:", Error "showdown")] ∧
  (extensions s' !! "acme.foo") ≫= (λ ext, ext_data ext !! "readme") = None.
Proof. vm_compute. done. Qed.


(** Three writes within the window, while the installed set is reconciled,
    then quiet: one cycle, for "foo". *)
Example debounce_coalesces_example :
  cycles (run plain (init host_plugins)
            (SetQuery "f" :: burst_inputs typing_burst ++ repeat Tick wait))
  = [("foo", 1)].
Proof. vm_compute. reflexivity. Qed.

Lemma query_setter_frame_witness :
  step plain search_pending (SetQuery "foo")
    = search_pending ∧
  fired (step plain search_pending (SetQuery "bar"))
    = fired search_pending ++ [DidChangeQuery "bar"].
Proof.
  split.
  - exact (proj2 (query_setter_frame plain
                    "foo" search_pending)).
  - pose proof (proj2 (query_setter_frame plain
                    "bar" search_pending)) as H.
    cbv zeta in H. exact (proj1 (proj2 H)).
Defined.

Lemma superseded_cycle_witness :
  reachable plain late_callback ∧
  ProgressSearch "a" 1 ∈ suspended late_callback ∧
  1 ≠ searchCancellationTokenSource late_callback ∧
  let s' := step plain late_callback (Resume (ProgressSearch "a" 1) Go) in
  suspended s' = remove_first (ProgressSearch "a" 1) (suspended late_callback) ∧
  settled s' = settled late_callback ++ [Fulfilled (OpSearch 1) None] ∧
  extensions s' = extensions late_callback ∧
  _searchResult s' = _searchResult late_callback ∧
  fired s' = fired late_callback.
Proof.
  assert (H1 : reachable plain late_callback)
    by apply reachable_run, reachable_init.
  assert (H2 : ProgressSearch "a" 1 ∈ suspended late_callback)
    by (apply (bool_decide_unpack _); vm_compute; exact I).
  assert (H3 : 1 ≠ searchCancellationTokenSource late_callback)
    by (vm_compute; discriminate).
  exact (conj H1 (conj H2 (conj H3
    (superseded_cycle_is_not_started plain late_callback "a" 1 H1 H2 H3)))).
Defined.

Lemma one_record_per_id_witness :
  reachable plain awaiting_readme ∧
  extensions awaiting_readme !! "acme.foo" = Some (mkExtension "acme.foo" acme_detail) ∧
  ("acme.foo" = "acme.foo" ∧
   mkExtension "acme.foo" acme_detail = mkExtension "acme.foo" acme_detail).
Proof.
  assert (H1 : reachable plain awaiting_readme)
    by apply reachable_run, reachable_init.
  assert (H2 : extensions awaiting_readme !! "acme.foo"
               = Some (mkExtension "acme.foo" acme_detail))
    by (vm_compute; reflexivity).
  exact (conj H1 (conj H2
    (one_record_per_id plain awaiting_readme _ _ _ _ H1 H2 H2 eq_refl))).
Defined.

Lemma refresh_reply_witness :
  AwaitRefresh "acme.foo" ∈ suspended refresh_pending ∧
  let s' := step plain refresh_pending
              (Resume (AwaitRefresh "acme.foo") (Detail (Ok acme_detail))) in
  fired s' = fired refresh_pending ∧
  settled s' = settled refresh_pending ∧
  extensions s' !! "acme.foo" =
    Some (update acme_detail
            (default (extensionFactory "acme.foo")
               (extensions refresh_pending !! "acme.foo"))).
Proof.
  assert (H1 : AwaitRefresh "acme.foo" ∈ suspended refresh_pending)
    by (apply (bool_decide_unpack _); vm_compute; exact I).
  split; [exact H1|].
  destruct (refresh_reply_is_silent plain refresh_pending "acme.foo"
              (Ok acme_detail) H1) as (Hf & Hs & _ & _ & _ & _ & Hrec & _).
  exact (conj Hf (conj Hs Hrec)).
Defined.

Lemma resolve_stores_readme_witness :
  getExtension "acme.foo" awaiting_readme = Some (mkExtension "acme.foo" acme_detail) ∧
  compileReadme plain "# Foo" = Ok "# Foo" ∧
  let s' := exec (resolve_step2 plain "acme.foo" (Ok "# Foo")) awaiting_readme in
  let ext' := update {["readme" := VString "# Foo"]} (mkExtension "acme.foo" acme_detail) in
  fst (resolve_step2 plain "acme.foo" (Ok "# Foo") awaiting_readme)
    = Returned (Some ext') ∧
  getExtension "acme.foo" s' = Some ext' ∧
  ext_data ext' !! "readme" = Some (VString "# Foo") ∧
  fired s' = fired awaiting_readme ++ [DidChange].
Proof.
  assert (H1 : getExtension "acme.foo" awaiting_readme
               = Some (mkExtension "acme.foo" acme_detail))
    by (vm_compute; reflexivity).
  assert (H2 : compileReadme plain "# Foo" = Ok "# Foo") by reflexivity.
  split; [exact H1|]. split; [exact H2|].
  destruct (resolve_stores_readme plain "acme.foo" "# Foo" "# Foo" _
              awaiting_readme H1 H2) as (Hr & Hg & Hk & _ & _ & Hf & _).
  exact (conj Hr (conj Hg (conj Hk Hf))).
Defined.

(** [resolve] of an id whose detail names no readme is fulfilled as soon
    as the detail arrives. *)
Example resolve_after_detail_example :
  let s' := resolve_step1 "acme.bar" (Ok {["version" := VString "2.0"]}) (init []) in
  suspended s' = [ProgressInstalled] ∧
  fired s' = [DidChange] ∧
  settled s' =
    [Fulfilled (OpResolve "acme.bar")
       (Some (mkExtension "acme.bar" {["version" := VString "2.0"]}))].
Proof. vm_compute. done. Qed.


Lemma records_are_never_removed_witness :
  getExtension "acme.foo" refresh_pending = Some (extensionFactory "acme.foo") ∧
  ∃ e', getExtension "acme.foo"
          (run plain refresh_pending
             [PluginsChanged []; Resume ProgressInstalled Go;
              Resume (AwaitRefresh "acme.foo") (Detail (Err (VSXResponseError 404)))])
        = Some e' ∧
        ext_id e' = ext_id (extensionFactory "acme.foo").
Proof.
  assert (H1 : getExtension "acme.foo" refresh_pending
               = Some (extensionFactory "acme.foo"))
    by (vm_compute; reflexivity).
  exact (conj H1 (records_are_never_removed plain refresh_pending _ _ _ H1)).
Defined.

Lemma listed_ids_witness :
  reachable plain two_cycles ∧
  NoDup (_installed two_cycles) ∧
  NoDup (_searchResult two_cycles) ∧
  (∀ id, id ∈ _installed two_cycles → is_Some (getExtension id two_cycles)) ∧
  (∀ id, id ∈ _searchResult two_cycles → is_Some (getExtension id two_cycles)).
Proof.
  assert (H1 : reachable plain two_cycles) by apply reachable_run, reachable_init.
  exact (conj H1 (listed_ids_have_records plain two_cycles H1)).
Defined.

Lemma at_most_one_live_cycle_witness :
  reachable plain late_callback ∧
  length (live_cycles late_callback) ≤ 1 ∧
  ∀ k, k ∈ live_cycles late_callback →
       search_token k = Some (searchCancellationTokenSource late_callback).
Proof.
  assert (H1 : reachable plain late_callback) by apply reachable_run, reachable_init.
  exact (conj H1 (at_most_one_live_cycle plain late_callback H1)).
Defined.

(** Of the two cycles suspended in [late_callback], only the second is
    live. *)
Example at_most_one_live_cycle_example :
  suspended late_callback =
    [ProgressInstalled; ProgressSearch "a" 1; ProgressSearch "b" 2] ∧
  live_cycles late_callback = [ProgressSearch "b" 2].
Proof. vm_compute. done. Qed.


(** * The task terminal widget manager (task-terminal-widget-manager.ts)

    [TaskTerminalWidgetManager] decides whether a task runs in a terminal
    that exists or in a new one.  One call is modelled as one function: the
    only [await] that can suspend for long is the creation of a widget, and
    the widget it yields is an argument. *)

Module TaskTerminal.

(** [PanelKind] (../common) is not among the sources; the source names these
    three members. *)
Inductive PanelKind :=
| Shared
| Dedicated
| New.

#[global] Instance PanelKind_eq_dec : EqDecision PanelKind.
Proof. solve_decision. Defined.

(** What the manager takes from outside: the type [TaskConfiguration],
    [taskDefinitionRegistry.compareTasks], and whether a member of
    [PanelKind] is truthy (the values of the enum are not among the
    sources, and the source tests [!!options.taskPanel]). *)
Record Collaborators := mkCollaborators {
  TaskConfiguration : Type;
  compareTasks : TaskConfiguration → TaskConfiguration → bool;
  truthy : PanelKind → bool
}.

(** The fields of [TaskTerminalWidgetOpenerOptions] that the source reads. *)
Record Options (c : Collaborators) := mkOptions {
  taskPanel : option PanelKind;
  taskConfig : option (TaskConfiguration c);
  title : option string;
  mode : option string;
  widgetOptions_area : option string
}.
Arguments mkOptions {c}.
Arguments taskPanel {c}.
Arguments taskConfig {c}.
Arguments title {c}.
Arguments mode {c}.
Arguments widgetOptions_area {c}.

(** A terminal widget, as the manager sees it during one call. *)
Record TerminalWidget := mkWidget {
  widget_id : string;
  hasRunningTask : bool
}.

#[global] Instance TerminalWidget_eq_dec : EqDecision TerminalWidget.
Proof. solve_decision. Defined.

(** A value of [terminalWidgetMap]. *)
Record MapEntry (c : Collaborators) := mkMapEntry {
  isDedicated : bool;
  entry_taskConfig : option (TaskConfiguration c);
  widget : TerminalWidget
}.
Arguments mkMapEntry {c}.
Arguments isDedicated {c}.
Arguments entry_taskConfig {c}.
Arguments widget {c}.

(** A JavaScript [Map<string, V>]: the keys are distinct and iterate in
    insertion order; [set] on a key that is present keeps its place. *)
Fixpoint Map_set {V} (k : string) (v : V) (m : list (string * V))
  : list (string * V) :=
  match m with
  | [] => [(k, v)]
  | (k', v') :: r => if decide (k = k') then (k, v) :: r else (k', v') :: Map_set k v r
  end.

Definition Map_has {V} (k : string) (m : list (string * V)) : bool :=
  bool_decide (k ∈ map fst m).

Definition Map_delete {V} (k : string) (m : list (string * V))
  : list (string * V) :=
  filter (λ kv, kv.1 ≠ k) m.

(** The calls on the shell and on widgets that a call of the manager
    makes, in order. *)
Inductive Effect :=
| OnTerminalDidClose (id : string)
| AddWidget (id : string) (area : string)
| SetTitle (id : string) (title : string)
| RevealWidget (id : string)
| ActivateWidget (id : string).

(** [TaskTerminalWidgetOpenerOptions] (lines 28-40) *)
Definition isDedicatedTerminal {c} (options : Options c) : bool :=
  match taskPanel options with
  | Some p => truthy c p && bool_decide (p = Dedicated)
  | None => false
  end.

Definition isNewTerminal {c} (options : Options c) : bool :=
  match taskPanel options with
  | Some p => truthy c p && bool_decide (p = New)
  | None => false
  end.

Definition isSharedTerminal {c} (options : Options c) : bool :=
  match taskPanel options with
  | None => true
  | Some p => bool_decide (p = Shared)
  end.

(** The condition of lines 88-92. *)
Definition dedicated_match {c} (options : Options c) (e : MapEntry c) : bool :=
  isDedicated e && negb (hasRunningTask (widget e)) &&
  match entry_taskConfig e, taskConfig options with
  | Some taskConfig, Some optionsTaskConfig =>
      compareTasks c optionsTaskConfig taskConfig
  | _, _ => false
  end.

(** The condition of line 101. *)
Definition shared_match {c} (e : MapEntry c) : bool :=
  negb (isDedicated e) && negb (hasRunningTask (widget e)).

(** Which entries the loops of lines 84-105 accept for these options. *)
Definition reusable {c} (options : Options c) (e : MapEntry c) : bool :=
  if isDedicatedTerminal options then dedicated_match options e
  else if isSharedTerminal options then shared_match e
  else false.

(** A loop over [terminalWidgetMap.values()] that assigns
    [reusableTerminalWidget] at every accepted entry. *)
Definition scan {c} (accept : MapEntry c → bool) (m : list (string * MapEntry c))
  : option TerminalWidget :=
  foldl (λ found kv, if accept kv.2 then Some (widget kv.2) else found) None m.

(** [getWidgetToRunTask] (lines 82-118).  [created] is the widget that
    [widgetManager.getOrCreateWidget] yields if it is called. *)
Definition getWidgetToRunTask {c} (options : Options c)
    (m : list (string * MapEntry c)) (created : TerminalWidget)
  : list Effect * (bool * TerminalWidget) :=
  let reusableTerminalWidget :=
    if isDedicatedTerminal options then scan (dedicated_match options) m
    else if isSharedTerminal options then scan shared_match m
    else None in
  match reusableTerminalWidget with
  | None => ([OnTerminalDidClose (widget_id created)], (true, created))
  | Some w => ([], (false, w))
  end.

(** The handler of lines 110-114, run when the terminal [id] closes. *)
Definition onTerminalDidClose {c} (id : string) (m : list (string * MapEntry c))
  : list (string * MapEntry c) :=
  if Map_has id m then Map_delete id m else m.

(** JavaScript truthiness of an optional string. *)
Definition truthy_string (o : option string) : option string :=
  match o with
  | Some str => if bool_decide (str = "") then None else Some str
  | None => None
  end.

(** The message of line 60; [dq] is the double quote. *)
Definition dq : string := String (ascii_of_nat 34) EmptyString.
Definition missing_taskConfig : string :=
  dq +:+ "taskConfig" +:+ dq +:+ " must be included as part of the " +:+
  dq +:+ "option" +:+ dq +:+ " if " +:+ dq +:+ "isDedicated" +:+ dq +:+ " is true".

(** [getOrCreateWidget] (lines 57-80): the exception, or the widget, the
    map afterwards and the calls made. *)
Definition getOrCreateWidget {c} (options : Options c)
    (m : list (string * MapEntry c)) (created : TerminalWidget)
  : Exn + (TerminalWidget * list (string * MapEntry c) * list Effect) :=
  let isDedicated := isDedicatedTerminal options in
  if isDedicated && negb (bool_decide (is_Some (taskConfig options))) then
    inl (Error missing_taskConfig)
  else
    let '(effects0, (isNew, widget)) := getWidgetToRunTask options m created in
    let '(m1, effects1) :=
      if (isNew : bool) then
        (Map_set (widget_id widget) (mkMapEntry isDedicated (taskConfig options) widget) m,
         [AddWidget (widget_id widget) (default "bottom" (widgetOptions_area options))])
      else
        match truthy_string (title options) with
        | Some t => (m, [SetTitle (widget_id widget) t])
        | None => (m, [])
        end in
    let effects2 :=
      if bool_decide (mode options = Some "reveal") then [RevealWidget (widget_id widget)]
      else if bool_decide (mode options = Some "activate")
           then [ActivateWidget (widget_id widget)]
           else [] in
    inr (widget, m1, effects0 ++ effects1 ++ effects2).

(** Every entry sits under the id of its widget, and no key occurs
    twice. *)
Definition map_wf {c} (m : list (string * MapEntry c)) : Prop :=
  NoDup (map fst m) ∧ Forall (λ kv, widget_id (widget kv.2) = kv.1) m.

(** ** Concrete inputs *)

(** Task configurations are labels; two tasks are the same when their
    labels are. *)
Definition labels : Collaborators :=
  mkCollaborators string String.eqb (λ _, true).

Definition idle_shared : MapEntry labels :=
  mkMapEntry (c:=labels) false None (mkWidget "terminal-1" false).
Definition busy_shared : MapEntry labels :=
  mkMapEntry (c:=labels) false None (mkWidget "terminal-2" true).
Definition idle_build : MapEntry labels :=
  mkMapEntry (c:=labels) true (Some "build") (mkWidget "terminal-3" false).
Definition idle_shared_later : MapEntry labels :=
  mkMapEntry (c:=labels) false None (mkWidget "terminal-4" false).

Definition terminals : list (string * MapEntry labels) :=
  [("terminal-1", idle_shared); ("terminal-2", busy_shared);
   ("terminal-3", idle_build); ("terminal-4", idle_shared_later)].

Definition shared_options : Options labels :=
  mkOptions (c:=labels) None (Some "test") (Some "Task: test") (Some "reveal") None.
Definition build_options : Options labels :=
  mkOptions (c:=labels) (Some Dedicated) (Some "build") None (Some "activate") None.
Definition new_options : Options labels :=
  mkOptions (c:=labels) (Some New) (Some "test") None None (Some "right").

Definition fresh_widget : TerminalWidget := mkWidget "terminal-5" false.

(** ** Properties *)

Section Properties.

Context {c : Collaborators}.

Lemma panel_kinds_facts (options : Options c) :
  (isDedicatedTerminal options = true → taskPanel options = Some Dedicated) ∧
  (isNewTerminal options = true → taskPanel options = Some New) ∧
  (isSharedTerminal options = true ↔
   taskPanel options = None ∨ taskPanel options = Some Shared) ∧
  isDedicatedTerminal options && isNewTerminal options = false ∧
  isDedicatedTerminal options && isSharedTerminal options = false ∧
  isNewTerminal options && isSharedTerminal options = false ∧
  (truthy c Dedicated = true → truthy c New = true →
   isDedicatedTerminal options || isNewTerminal options
     || isSharedTerminal options = true).
Proof.
  unfold isDedicatedTerminal, isNewTerminal, isSharedTerminal.
  destruct (taskPanel options) as [[]|]; cbn;
    destruct (truthy c Shared), (truthy c Dedicated), (truthy c New); cbn;
    repeat split; try done; try (intros [|]; done); auto.
Qed.

(** X11: The three predicates on the options: each implies the panel kind it
    names; no two hold together; and if the members [Dedicated] and [New]
    of the enum are truthy, one of the three holds for every options. *)
Theorem panel_kinds (options : Options c) :
  (isDedicatedTerminal options = true → taskPanel options = Some Dedicated) ∧
  (isNewTerminal options = true → taskPanel options = Some New) ∧
  (isSharedTerminal options = true ↔
   taskPanel options = None ∨ taskPanel options = Some Shared) ∧
  isDedicatedTerminal options && isNewTerminal options = false ∧
  isDedicatedTerminal options && isSharedTerminal options = false ∧
  isNewTerminal options && isSharedTerminal options = false ∧
  (truthy c Dedicated = true → truthy c New = true →
   isDedicatedTerminal options || isNewTerminal options
     || isSharedTerminal options = true).
Proof. apply panel_kinds_facts. Qed.

Lemma scan_snoc (accept : MapEntry c → bool) m kv :
  scan accept (m ++ [kv]) =
    if accept kv.2 then Some (widget kv.2) else scan accept m.
Proof. unfold scan. by rewrite foldl_app. Qed.

Lemma scan_Some (accept : MapEntry c → bool) m w :
  scan accept m = Some w →
  ∃ kv, kv ∈ m ∧ accept kv.2 = true ∧ widget kv.2 = w.
Proof.
  induction m as [|kv m IH] using rev_ind; [done|].
  rewrite scan_snoc. destruct (accept kv.2) eqn:Ha.
  - intros [= <-]. exists kv. split; [|done]. apply elem_of_app. right.
    by apply list_elem_of_singleton.
  - intros (kv' & Hin & H)%IH. exists kv'. split; [|done].
    apply elem_of_app. by left.
Qed.

Lemma scan_None (accept : MapEntry c → bool) m :
  (∀ kv, kv ∈ m → accept kv.2 = false) → scan accept m = None.
Proof.
  induction m as [|kv m IH] using rev_ind; [done|]. intros Hall.
  rewrite scan_snoc, Hall by (apply elem_of_app; right; by apply list_elem_of_singleton).
  apply IH. intros kv' Hin. apply Hall. apply elem_of_app. by left.
Qed.

Lemma scan_last (accept : MapEntry c → bool) m1 kv m2 :
  accept kv.2 = true →
  (∀ kv', kv' ∈ m2 → accept kv'.2 = false) →
  scan accept (m1 ++ kv :: m2) = Some (widget kv.2).
Proof.
  revert m1. induction m2 as [|kv2 m2 IH] using rev_ind; intros m1 Ha Hall.
  - by rewrite scan_snoc, Ha.
  - change (m1 ++ kv :: m2 ++ [kv2]) with (m1 ++ (kv :: m2) ++ [kv2]).
    rewrite app_assoc, scan_snoc.
    rewrite Hall by (apply elem_of_app; right; by apply list_elem_of_singleton).
    apply IH; [done|]. intros kv' Hin. apply Hall. apply elem_of_app. by left.
Qed.

(** The two loops of [getWidgetToRunTask] amount to one scan for the
    entries that the options accept. *)
Lemma getWidgetToRunTask_scan (options : Options c) m created :
  getWidgetToRunTask options m created =
    match scan (reusable options) m with
    | None => ([OnTerminalDidClose (widget_id created)], (true, created))
    | Some w => ([], (false, w))
    end.
Proof.
  unfold getWidgetToRunTask, reusable.
  destruct (isDedicatedTerminal options); [done|].
  destruct (isSharedTerminal options); [done|].
  rewrite (scan_None (λ _, false)); done.
Qed.

Lemma reusable_spec (options : Options c) (e : MapEntry c) :
  reusable options e = true →
  hasRunningTask (widget e) = false ∧
  isDedicated e = isDedicatedTerminal options ∧
  isNewTerminal options = false ∧
  (isDedicatedTerminal options = true →
   ∃ tc otc, entry_taskConfig e = Some tc ∧ taskConfig options = Some otc ∧
             compareTasks c otc tc = true).
Proof.
  pose proof (panel_kinds_facts options) as (_ & _ & _ & Hdn & _ & Hns & _).
  unfold reusable, dedicated_match, shared_match.
  destruct (isDedicatedTerminal options) eqn:Hd.
  - cbn in Hdn. rewrite Hdn.
    destruct (isDedicated e), (hasRunningTask (widget e)); cbn; try done.
    destruct (entry_taskConfig e) as [tc|]; [|done].
    destruct (taskConfig options) as [otc|]; [|done].
    intros Hcmp. repeat split; try done. intros _. by exists tc, otc.
  - destruct (isSharedTerminal options) eqn:Hs; [|done].
    rewrite andb_true_r in Hns. rewrite Hns.
    destruct (isDedicated e), (hasRunningTask (widget e)); cbn; try done.
Qed.

Lemma reused_widget_facts (options : Options c)
    (m : list (string * MapEntry c)) (created w : TerminalWidget) :
  snd (getWidgetToRunTask options m created) = (false, w) →
  ∃ k e, (k, e) ∈ m ∧ widget e = w ∧
         hasRunningTask w = false ∧
         isDedicated e = isDedicatedTerminal options ∧
         isNewTerminal options = false ∧
         (isDedicatedTerminal options = true →
          ∃ tc otc, entry_taskConfig e = Some tc ∧ taskConfig options = Some otc ∧
                    compareTasks c otc tc = true).
Proof.
  rewrite getWidgetToRunTask_scan.
  destruct (scan (reusable options) m) as [w'|] eqn:Hscan; [|done].
  cbn [snd]. intros [= ->].
  apply scan_Some in Hscan as ([k e] & Hin & Ha & Hw). cbn [snd] in Ha, Hw.
  destruct (reusable_spec options e Ha) as (Hidle & Hded & Hnew & Htask).
  exists k, e. subst w. by repeat split.
Qed.

(** X12: A terminal that [getWidgetToRunTask] hands out for reuse is one of the
    map, has no running task, and is dedicated exactly if the options ask
    for a dedicated one; the options do not ask for a new terminal; and a
    dedicated terminal is reused only for the task it ran, as
    [compareTasks] tells. *)
Theorem reused_widget_is_idle_and_matches (options : Options c)
    (m : list (string * MapEntry c)) (created w : TerminalWidget) :
  snd (getWidgetToRunTask options m created) = (false, w) →
  ∃ k e, (k, e) ∈ m ∧ widget e = w ∧
         hasRunningTask w = false ∧
         isDedicated e = isDedicatedTerminal options ∧
         isNewTerminal options = false ∧
         (isDedicatedTerminal options = true →
          ∃ tc otc, entry_taskConfig e = Some tc ∧ taskConfig options = Some otc ∧
                    compareTasks c otc tc = true).
Proof. apply reused_widget_facts. Qed.

(** X13: Among the terminals that the options accept, the one that was
    registered last is reused, and then no widget is created. *)
Theorem last_reusable_wins (options : Options c)
    (m1 m2 : list (string * MapEntry c)) (k : string) (e : MapEntry c)
    (created : TerminalWidget) :
  reusable options e = true →
  (∀ kv, kv ∈ m2 → reusable options kv.2 = false) →
  getWidgetToRunTask options (m1 ++ (k, e) :: m2) created = ([], (false, widget e)).
Proof.
  intros Ha Hall. rewrite getWidgetToRunTask_scan.
  by rewrite (scan_last (reusable options) m1 (k, e) m2 Ha Hall).
Qed.

(** X14: If the options accept no terminal of the map, a widget is created and
    the close handler is registered on it.  That is always so when the
    options ask for a new terminal. *)
Theorem no_reusable_creates (options : Options c)
    (m : list (string * MapEntry c)) (created : TerminalWidget) :
  (isNewTerminal options = true ∨ ∀ kv, kv ∈ m → reusable options kv.2 = false) →
  getWidgetToRunTask options m created =
    ([OnTerminalDidClose (widget_id created)], (true, created)).
Proof.
  intros H. rewrite getWidgetToRunTask_scan. rewrite scan_None; [done|].
  destruct H as [Hnew|Hall]; [|done]. intros kv _.
  destruct (reusable options kv.2) eqn:Ha; [|done].
  destruct (reusable_spec options kv.2 Ha) as (_ & _ & Hn & _). congruence.
Qed.


Lemma map_fst_Map_set {V} k (v : V) m :
  k ∈ map fst m → map fst (Map_set k v m) = map fst m.
Proof.
  induction m as [|[k' v'] m IH]; [by intros ?%elem_of_nil|].
  cbn [map fst Map_set]. intros Hin. case_decide as Hk; [by subst|].
  cbn [map fst]. f_equal. apply IH. apply elem_of_cons in Hin as [?|?]; done.
Qed.

Lemma map_fst_Map_set_new {V} k (v : V) m :
  k ∉ map fst m → map fst (Map_set k v m) = map fst m ++ [k].
Proof.
  induction m as [|[k' v'] m IH]; [done|].
  cbn [map fst Map_set]. intros Hin%not_elem_of_cons. destruct Hin as [Hne Hin].
  rewrite decide_False by done. cbn [map fst app]. f_equal. by apply IH.
Qed.

Lemma elem_of_Map_set {V} k (v : V) m : (k, v) ∈ Map_set k v m.
Proof.
  induction m as [|[k' v'] m IH]; cbn [Map_set]; [by apply list_elem_of_singleton|].
  case_decide; apply elem_of_cons; [by left|by right].
Qed.

Lemma Forall_Map_set {V} (P : string * V → Prop) k v m :
  P (k, v) → Forall P m → Forall P (Map_set k v m).
Proof.
  intros Hkv. induction 1 as [|[k' v'] m Hx Hm IH]; cbn [Map_set].
  - by repeat constructor.
  - case_decide; constructor; done.
Qed.

Lemma map_wf_Map_set k (e : MapEntry c) m :
  widget_id (widget e) = k → map_wf m → map_wf (Map_set k e m).
Proof.
  intros Hk [Hnd Hall]. split; [|by apply Forall_Map_set].
  destruct (decide (k ∈ map fst m)) as [Hin|Hin].
  - by rewrite map_fst_Map_set.
  - rewrite map_fst_Map_set_new by done. apply NoDup_app. split; [done|].
    split; [|apply NoDup_singleton]. intros x Hx ->%list_elem_of_singleton. done.
Qed.

(** X16: A call of [getOrCreateWidget] that returns keeps the map well-formed
    (no key twice, every entry under the id of its widget), and the widget
    it returns is registered in the map under its id, with a dedication
    that is the one the options ask for.  A reused widget leaves the map
    as it was. *)
Theorem returned_widget_is_registered (options : Options c)
    (m m' : list (string * MapEntry c)) (created w : TerminalWidget)
    (effects : list Effect) :
  map_wf m →
  getOrCreateWidget options m created = inr (w, m', effects) →
  map_wf m' ∧
  (∃ e, (widget_id w, e) ∈ m' ∧ widget e = w ∧
        isDedicated e = isDedicatedTerminal options) ∧
  (fst (snd (getWidgetToRunTask options m created)) = false → m' = m).
Proof.
  intros Hwf. unfold getOrCreateWidget.
  destruct (isDedicatedTerminal options && negb (bool_decide (is_Some (taskConfig options))));
    [done|].
  destruct (getWidgetToRunTask options m created) as [eff0 [isNew w0]] eqn:Hget.
  destruct isNew.
  - intros [= <- <- <-]. split; [by apply map_wf_Map_set|]. split; [|done].
    eexists. split; [apply elem_of_Map_set|done].
  - assert (Hreuse : snd (getWidgetToRunTask options m created) = (false, w0))
      by by rewrite Hget.
    apply reused_widget_facts in Hreuse
      as (k & e & Hin & Hw & _ & Hded & _).
    assert (Hk : widget_id (widget e) = k).
    { destruct Hwf as [_ Hall]. rewrite Forall_forall in Hall. exact (Hall _ Hin). }
    destruct (truthy_string (title options)); intros [= <- <- <-];
      (split; [done|]; split; [|done]; exists e; subst w0; by rewrite Hk).
Qed.

Lemma map_wf_Map_delete id (m : list (string * MapEntry c)) :
  map_wf m → map_wf (Map_delete id m).
Proof.
  intros [Hnd Hall]. split.
  - unfold Map_delete. clear Hall. induction m as [|[k e] m IH]; [constructor|].
    cbn [map fst] in Hnd. apply NoDup_cons in Hnd as [Hk Hnd].
    rewrite filter_cons. case_decide; [|by apply IH].
    cbn [map fst]. apply NoDup_cons. split; [|by apply IH].
    intros Hin. apply Hk. apply list_elem_of_fmap in Hin as (kv & -> & Hkv).
    apply list_elem_of_filter in Hkv as [_ Hkv]. apply list_elem_of_fmap. by exists kv.
  - rewrite Forall_forall in Hall |- *. intros kv Hkv.
    apply list_elem_of_filter in Hkv as [_ Hkv]. by apply Hall.
Qed.

(** X17: Once a terminal has closed, it is never handed out for reuse: the
    close handler removes its entry, and every other entry stays. *)
Theorem closed_terminal_is_not_reused (options : Options c)
    (m : list (string * MapEntry c)) (id : string) (created w : TerminalWidget) :
  map_wf m →
  map_wf (onTerminalDidClose id m) ∧
  (∀ kv, kv ∈ onTerminalDidClose id m ↔ kv ∈ m ∧ kv.1 ≠ id) ∧
  (snd (getWidgetToRunTask options (onTerminalDidClose id m) created) = (false, w) →
   widget_id w ≠ id).
Proof.
  intros Hwf.
  assert (Hmem : ∀ kv, kv ∈ onTerminalDidClose id m ↔ kv ∈ m ∧ kv.1 ≠ id).
  { intros kv. unfold onTerminalDidClose, Map_has, Map_delete. case_bool_decide as Hin.
    - rewrite list_elem_of_filter. tauto.
    - split; [|tauto]. intros Hkv. split; [done|]. intros <-. apply Hin.
      apply list_elem_of_fmap. by exists kv. }
  assert (Hwf' : map_wf (onTerminalDidClose id m)).
  { unfold onTerminalDidClose. destruct (Map_has id m); [|done].
    by apply map_wf_Map_delete. }
  split; [done|]. split; [done|]. intros Hreuse.
  apply reused_widget_facts in Hreuse as (k & e & Hin & Hw & _).
  destruct Hwf' as [_ Hall]. rewrite Forall_forall in Hall.
  specialize (Hall _ Hin). cbn [fst snd] in Hall.
  apply Hmem in Hin as [_ Hne]. cbn [fst] in Hne. congruence.
Qed.

End Properties.

(** ** The properties on the concrete inputs *)

Lemma terminals_wf : map_wf terminals.
Proof.
  split.
  - apply (bool_decide_unpack _). vm_compute. exact I.
  - repeat constructor.
Qed.

Lemma reused_widget_witness :
  snd (getWidgetToRunTask shared_options terminals fresh_widget)
    = (false, mkWidget "terminal-4" false) ∧
  ∃ k e, (k, e) ∈ terminals ∧ widget e = mkWidget "terminal-4" false ∧
         hasRunningTask (mkWidget "terminal-4" false) = false ∧
         isDedicated e = isDedicatedTerminal shared_options ∧
         isNewTerminal shared_options = false.
Proof.
  assert (H : snd (getWidgetToRunTask shared_options terminals fresh_widget)
              = (false, mkWidget "terminal-4" false)) by reflexivity.
  split; [exact H|].
  destruct (reused_widget_is_idle_and_matches (c:=labels) shared_options terminals
              fresh_widget _ H) as (k & e & H1 & H2 & H3 & H4 & H5 & _).
  exists k, e. exact (conj H1 (conj H2 (conj H3 (conj H4 H5)))).
Defined.

Lemma last_reusable_wins_witness :
  reusable build_options idle_build = true ∧
  (∀ kv, kv ∈ [("terminal-4", idle_shared_later)] →
         reusable build_options kv.2 = false) ∧
  getWidgetToRunTask build_options terminals fresh_widget
    = ([], (false, mkWidget "terminal-3" false)).
Proof.
  assert (H1 : reusable build_options idle_build = true) by reflexivity.
  assert (H2 : ∀ kv, kv ∈ [("terminal-4", idle_shared_later)] →
                     reusable build_options kv.2 = false).
  { intros kv Hkv. apply list_elem_of_singleton in Hkv as ->. reflexivity. }
  split; [exact H1|]. split; [exact H2|].
  exact (last_reusable_wins (c:=labels) build_options
           [("terminal-1", idle_shared); ("terminal-2", busy_shared)]
           [("terminal-4", idle_shared_later)] "terminal-3" idle_build
           fresh_widget H1 H2).
Defined.

Lemma no_reusable_creates_witness :
  isNewTerminal new_options = true ∧
  getWidgetToRunTask new_options terminals fresh_widget
    = ([OnTerminalDidClose "terminal-5"], (true, fresh_widget)).
Proof.
  assert (H : isNewTerminal new_options = true) by reflexivity.
  split; [exact H|].
  exact (no_reusable_creates (c:=labels) new_options terminals fresh_widget
           (or_introl H)).
Defined.

Lemma returned_widget_witness :
  map_wf terminals ∧
  getOrCreateWidget new_options terminals fresh_widget
    = inr (fresh_widget,
           terminals ++ [("terminal-5", mkMapEntry (c:=labels) false (Some "test") fresh_widget)],
           [OnTerminalDidClose "terminal-5"; AddWidget "terminal-5" "right"]) ∧
  map_wf (terminals ++ [("terminal-5", mkMapEntry (c:=labels) false (Some "test") fresh_widget)]) ∧
  ∃ e, (widget_id fresh_widget, e)
         ∈ terminals ++ [("terminal-5", mkMapEntry (c:=labels) false (Some "test") fresh_widget)] ∧
       widget e = fresh_widget ∧
       isDedicated e = isDedicatedTerminal new_options.
Proof.
  assert (H : getOrCreateWidget new_options terminals fresh_widget
    = inr (fresh_widget,
           terminals ++ [("terminal-5", mkMapEntry (c:=labels) false (Some "test") fresh_widget)],
           [OnTerminalDidClose "terminal-5"; AddWidget "terminal-5" "right"]))
    by reflexivity.
  split; [exact terminals_wf|]. split; [exact H|].
  destruct (returned_widget_is_registered (c:=labels) new_options terminals _
              fresh_widget _ _ terminals_wf H) as (H1 & H2 & _).
  exact (conj H1 H2).
Defined.

(** A shared task reuses the idle shared terminal that was registered
    last, sets its title and reveals it; the map is left as it was. *)
Example getOrCreateWidget_reuse_example :
  getOrCreateWidget shared_options terminals fresh_widget
    = inr (mkWidget "terminal-4" false, terminals,
           [SetTitle "terminal-4" "Task: test"; RevealWidget "terminal-4"]).
Proof. reflexivity. Qed.

Lemma closed_terminal_witness :
  map_wf terminals ∧
  map_wf (onTerminalDidClose "terminal-4" terminals) ∧
  (∀ kv, kv ∈ onTerminalDidClose "terminal-4" terminals ↔
         kv ∈ terminals ∧ kv.1 ≠ "terminal-4").
Proof.
  split; [exact terminals_wf|].
  destruct (closed_terminal_is_not_reused (c:=labels) shared_options terminals
              "terminal-4" fresh_widget fresh_widget terminals_wf) as (H1 & H2 & _).
  exact (conj H1 H2).
Defined.

(** With "terminal-4" closed, the shared task falls back on "terminal-1". *)
Example closed_terminal_example :
  snd (getWidgetToRunTask shared_options
         (onTerminalDidClose "terminal-4" terminals) fresh_widget)
    = (false, mkWidget "terminal-1" false).
Proof. vm_compute. reflexivity. Qed.

End TaskTerminal.

(** * The extension resolver (vsx-extension-resolver.ts)

    [VSXExtensionResolver.resolve] is a straight line of calls on the
    registry, the file system and the deployer context.  A call is modelled
    as a function of what these answer; it yields the calls it has made, in
    order, and its outcome. *)

Module Resolver.

(** The fields of the registry's answer that the source reads. *)
Record ExtensionDetail := mkDetail {
  version : string;
  downloadUrl : string
}.

(** What the collaborators answer during one call.  [VSXExtensionUri.toId],
    [VSXRegistryAPI], [VSXEnvironment], fs-extra, decompress, filenamify and
    uuid are not among the sources; [download] (lines 99-117) is a wrapper
    of requestretry and of a write stream, taken by its result. *)
Record World := mkWorld {
  toId : string → option string;
  getExtension : string → Reply ExtensionDetail;
  getExtensionsDirUri : Reply string;
  fsPath : string → string;
  uri_resolve : string → string → string;
  filenamify : string → string;
  uuidv4 : string;
  ensureDir : string → Reply unit;
  pathExists : string → Reply bool;
  download : string → string → Reply bool;
  decompress : string → string → Reply unit;
  remove : string → Reply unit
}.

(** The lines that [resolve] writes with [console.log] and
    [console.error], by their template. *)
Inductive Line :=
| TryingToResolve (id : string)
| FailedToResolve (id : string) (e : Exn)
| ResolvedTo (id fullPluginName : string)
| AlreadyFound (fullPluginName extensionPath : string)
| TryingToDownload (fullPluginName downloadUrl : string)
| NotFound (fullPluginName : string)
| FailedToDownload (fullPluginName : string) (e : Exn)
| Downloaded (fullPluginName downloadPath : string)
| TryingToDecompress (fullPluginName extensionPath : string)
| FailedToDecompress (fullPluginName : string) (e : Exn)
| DecompressTo (fullPluginName extensionPath : string).

(** The calls with an effect outside the resolver. *)
Inductive Call :=
| Console (l : Line)
| EnsureDir (path : string)
| Download (url path : string)
| Decompress (from to : string)
| Remove (path : string)
| AddPlugin (fullPluginName extensionPath : string).

(** JavaScript truthiness of [string | undefined]. *)
Definition truthy_id (o : option string) : option string :=
  match o with
  | Some id => if bool_decide (id = "") then None else Some id
  | None => None
  end.

(** [accept] (lines 39-41) *)
Definition accept (w : World) (pluginId : string) : bool :=
  bool_decide (is_Some (truthy_id (toId w pluginId))).

(** The rest of [resolve] from line 77 on: the download file is there. *)
Definition unpack (w : World) (fullPluginName downloadPath extensionPath : string)
  : list Call * Outcome unit :=
  let before :=
    [Console (Downloaded fullPluginName downloadPath);
     Console (TryingToDecompress fullPluginName extensionPath);
     Decompress downloadPath extensionPath] in
  match decompress w downloadPath extensionPath, remove w downloadPath with
  | Err e, Ok _ =>
      (before ++ [Console (FailedToDecompress fullPluginName e); Remove downloadPath],
       Returned tt)
  | Err e, Err e' =>
      (before ++ [Console (FailedToDecompress fullPluginName e); Remove downloadPath],
       Thrown e')
  | Ok _, Err e' => (before ++ [Remove downloadPath], Thrown e')
  | Ok _, Ok _ =>
      (before ++ [Remove downloadPath;
                  Console (DecompressTo fullPluginName extensionPath);
                  AddPlugin fullPluginName extensionPath],
       Returned tt)
  end.

(** [resolve] from line 61 on: the registry has answered. *)
Definition fetch (w : World) (fullPluginName downloadUrl : string)
  : list Call * Outcome unit :=
  match getExtensionsDirUri w with
  | Err e => ([], Thrown e)
  | Ok extensionsDirUri =>
      let dir := fsPath w extensionsDirUri in
      match ensureDir w dir with
      | Err e => ([EnsureDir dir], Thrown e)
      | Ok _ =>
          let extensionPath :=
            fsPath w (uri_resolve w extensionsDirUri (filenamify w fullPluginName)) in
          match pathExists w extensionPath with
          | Err e => ([EnsureDir dir], Thrown e)
          | Ok true =>
              ([EnsureDir dir;
                Console (AlreadyFound fullPluginName extensionPath);
                AddPlugin fullPluginName extensionPath],
               Returned tt)
          | Ok false =>
              let downloadPath := fsPath w (uri_resolve w extensionsDirUri (uuidv4 w)) in
              let before :=
                [EnsureDir dir;
                 Console (TryingToDownload fullPluginName downloadUrl);
                 Download downloadUrl downloadPath] in
              match download w downloadUrl downloadPath with
              | Err e =>
                  (before ++ [Console (FailedToDownload fullPluginName e)], Returned tt)
              | Ok false => (before ++ [Console (NotFound fullPluginName)], Returned tt)
              | Ok true =>
                  let '(calls, o) := unpack w fullPluginName downloadPath extensionPath in
                  (before ++ calls, o)
              end
          end
      end
  end.

(** [resolve] (lines 43-97), for the origin id of the context. *)
Definition resolve (w : World) (originId : string) : list Call * Outcome unit :=
  match truthy_id (toId w originId) with
  | None => ([], Returned tt)
  | Some id =>
      match getExtension w id with
      | Err e =>
          ([Console (TryingToResolve id); Console (FailedToResolve id e)], Returned tt)
      | Ok extension =>
          let fullPluginName := id +:+ "-" +:+ version extension in
          let '(calls, o) := fetch w fullPluginName (downloadUrl extension) in
          ([Console (TryingToResolve id); Console (ResolvedTo id fullPluginName)] ++ calls,
           o)
      end
  end.

(** The plugins that a call has added to the context. *)
Definition added (calls : list Call) : list (string * string) :=
  omap (λ c, match c with AddPlugin n p => Some (n, p) | _ => None end) calls.

(** The paths that a call has removed. *)
Definition removed (calls : list Call) : list string :=
  omap (λ c, match c with Remove p => Some p | _ => None end) calls.

(** The download files that a call has asked for. *)
Definition downloads (calls : list Call) : list string :=
  omap (λ c, match c with Download _ p => Some p | _ => None end) calls.

(** The files that a call has tried to unpack. *)
Definition unpacked (calls : list Call) : list string :=
  omap (λ c, match c with Decompress p _ => Some p | _ => None end) calls.

(** The failures that a call has written to the console. *)
Definition reported (calls : list Call) : list Exn :=
  omap (λ c, match c with
             | Console (FailedToResolve _ e) | Console (FailedToDownload _ e)
             | Console (FailedToDecompress _ e) => Some e
             | _ => None
             end) calls.

(** ** Concrete inputs *)

(** A world in which the registry knows [acme.foo] 1.0.0 and everything
    succeeds, the folder of the extension not being there yet. *)
Definition fresh_install : World :=
  mkWorld (λ s, if bool_decide (s = "vscode:extension/acme.foo") then Some "acme.foo" else None)
          (λ _, Ok (mkDetail "1.0.0" "https://open-vsx.org/acme.foo.vsix"))
          (Ok "file:///ext")
          (λ u, u) (λ u n, u +:+ "/" +:+ n) (λ n, n) "0000"
          (λ _, Ok tt) (λ _, Ok false) (λ _ _, Ok true) (λ _ _, Ok tt) (λ _, Ok tt).

(** The same world with a file system that fails to remove, and an archive
    that fails to unpack. *)
Definition broken_disk : World :=
  mkWorld (toId fresh_install) (getExtension fresh_install)
          (getExtensionsDirUri fresh_install)
          (fsPath fresh_install) (uri_resolve fresh_install)
          (filenamify fresh_install) (uuidv4 fresh_install)
          (ensureDir fresh_install) (pathExists fresh_install)
          (download fresh_install)
          (λ _ _, Err (Error "corrupt")) (λ _, Err (Error "EBUSY")).

(** The same world with a registry that answers 404 to the download. *)
Definition gone : World :=
  mkWorld (toId fresh_install) (getExtension fresh_install)
          (getExtensionsDirUri fresh_install)
          (fsPath fresh_install) (uri_resolve fresh_install)
          (filenamify fresh_install) (uuidv4 fresh_install)
          (ensureDir fresh_install) (pathExists fresh_install)
          (λ _ _, Ok false)
          (decompress fresh_install) (remove fresh_install).

Section Properties.
Context (w : World).

(** The paths of one call. *)
Definition extensionPath_of (dir fullPluginName : string) : string :=
  fsPath w (uri_resolve w dir (filenamify w fullPluginName)).

Definition downloadPath_of (dir : string) : string :=
  fsPath w (uri_resolve w dir (uuidv4 w)).

(** The unguarded awaits of [resolve] (lines 61, 62, 65 and 91). *)
Definition unguarded (e : Exn) : Prop :=
  getExtensionsDirUri w = Err e
  ∨ ∃ path, ensureDir w path = Err e ∨ pathExists w path = Err e ∨ remove w path = Err e.

Ltac resolve_cases originId :=
  unfold resolve, fetch, unpack;
  destruct (truthy_id (toId w originId)) as [id|] eqn:Hid;
  [destruct (getExtension w id) as [ext|e1] eqn:Hext;
   [destruct (getExtensionsDirUri w) as [dir|e2] eqn:Hdir;
    [cbv zeta;
     destruct (ensureDir w (fsPath w dir)) as [[]|e3] eqn:Hens;
     [destruct (pathExists w (fsPath w (uri_resolve w dir
                  (filenamify w (id +:+ "-" +:+ version ext)))))
        as [[|]|e4] eqn:Hpe;
      [|destruct (download w (downloadUrl ext) (fsPath w (uri_resolve w dir (uuidv4 w))))
          as [[|]|e5] eqn:Hdl;
        [destruct (decompress w (fsPath w (uri_resolve w dir (uuidv4 w)))
                     (fsPath w (uri_resolve w dir
                        (filenamify w (id +:+ "-" +:+ version ext)))))
           as [[]|e6] eqn:Hdc;
         destruct (remove w (fsPath w (uri_resolve w dir (uuidv4 w))))
           as [[]|e7] eqn:Hrm| |]|]| ]| ]| ]| ].

(** X18: [resolve] adds a plugin to the context exactly when the id is
    accepted, the registry answers, the extensions folder is there, and
    either the folder of this version exists already, or the archive is
    downloaded, unpacked and its download file removed.  The plugin is
    named [id-version] and lies in the extensions folder under the
    file name made of that name. *)
Theorem plugin_added_iff (originId n p : string) :
  (n, p) ∈ added (resolve w originId).1 ↔
  ∃ id ext dir,
    truthy_id (toId w originId) = Some id
    ∧ getExtension w id = Ok ext
    ∧ n = id +:+ "-" +:+ version ext
    ∧ getExtensionsDirUri w = Ok dir
    ∧ ensureDir w (fsPath w dir) = Ok tt
    ∧ p = extensionPath_of dir n
    ∧ (pathExists w p = Ok true
       ∨ (pathExists w p = Ok false
          ∧ download w (downloadUrl ext) (downloadPath_of dir) = Ok true
          ∧ decompress w (downloadPath_of dir) p = Ok tt
          ∧ remove w (downloadPath_of dir) = Ok tt)).
Proof.
  unfold extensionPath_of, downloadPath_of. split.
  - resolve_cases originId; cbn; intros Hin;
      try (by apply elem_of_nil in Hin);
      apply list_elem_of_singleton in Hin; injection Hin as -> ->;
      exists id, ext, dir; repeat (split; [done|]); auto.
  - intros (id & ext & dir & Hid & Hext & -> & Hdir & Hens & -> & Hcase).
    unfold resolve, fetch, unpack. rewrite Hid, Hext, Hdir. cbv zeta.
    rewrite Hens.
    destruct Hcase as [Hpe|(Hpe & Hdl & Hdc & Hrm)].
    + rewrite Hpe. cbn. apply list_elem_of_singleton. done.
    + rewrite Hpe, Hdl, Hdc, Hrm. cbn. apply list_elem_of_singleton. done.
Qed.

(** X19: one call of [resolve] adds at most one plugin; when it adds one,
    that is the last thing it does, and it returns. *)
Theorem at_most_one_plugin (originId : string) :
  length (added (resolve w originId).1) ≤ 1
  ∧ (added (resolve w originId).1 ≠ [] →
     (resolve w originId).2 = Returned tt
     ∧ ∃ before n p, (resolve w originId).1 = before ++ [AddPlugin n p]).
Proof.
  resolve_cases originId; cbn; (split; [lia|]); intros Hne; try done.
  - split; [done|]. by eexists [_; _; _; _], _, _.
  - split; [done|].
    by eexists [_; _; _; _; _; _; _; _; _; _], _, _.
Qed.

(** X20: [resolve] is rejected only with the failure of one of its
    unguarded awaits: the extensions folder, [ensureDir], [pathExists], or
    the removal of the download file.  A failure of the registry, of the
    download or of the unpacking never leaves it. *)
Theorem rejected_only_by_unguarded (originId : string) (e : Exn)
    (Hthrown : (resolve w originId).2 = Thrown e) :
  unguarded e.
Proof.
  revert Hthrown. unfold unguarded.
  resolve_cases originId; cbn; intros Hthrown; try done;
    injection Hthrown as ->; eauto 6.
Qed.

(** X21: the download file is removed exactly when its unpacking was
    tried, whether that succeeded or not, and before the plugin is added.
    A download file is asked for at most once, and it is removed if and
    only if the download was answered with [true]: after a 404 or a failed
    download, [resolve] removes nothing. *)
Theorem download_file_removed_iff_downloaded (originId : string) :
  removed (resolve w originId).1 = unpacked (resolve w originId).1
  ∧ length (downloads (resolve w originId).1) ≤ 1
  ∧ ∀ url path, Download url path ∈ (resolve w originId).1 →
      (path ∈ removed (resolve w originId).1 ↔ download w url path = Ok true).
Proof.
  resolve_cases originId; cbn; (split; [done|]); (split; [lia|]);
    intros url path Hin;
    repeat (apply elem_of_cons in Hin as [Hin|Hin]; [try done|]);
    try (by apply elem_of_nil in Hin);
    injection Hin as -> ->; rewrite Hdl;
    (split; [intros Hr; try done; by apply elem_of_nil in Hr
            |intros Hd; try done; apply list_elem_of_singleton; done]).
Qed.

(** X22: [resolve] does something exactly for the ids that [accept]
    accepts: for any other id it makes no call at all and returns, and for
    an accepted id it starts by announcing the id on the console. *)
Theorem accept_guards_resolve (originId : string) :
  (accept w originId = false → resolve w originId = ([], Returned tt))
  ∧ (accept w originId = true →
     ∃ id rest, toId w originId = Some id ∧ id ≠ ""
                ∧ (resolve w originId).1 = Console (TryingToResolve id) :: rest).
Proof.
  unfold accept. split.
  - intros Hacc. apply bool_decide_eq_false in Hacc.
    unfold resolve. destruct (truthy_id (toId w originId)); [|done].
    by destruct Hacc.
  - intros Hacc. apply bool_decide_eq_true in Hacc as [id Hid].
    assert (toId w originId = Some id ∧ id ≠ "") as [Hto Hne].
    { unfold truthy_id in Hid. destruct (toId w originId) as [i|]; [|done].
      case_bool_decide; [done|]. by injection Hid as ->. }
    exists id. unfold resolve. rewrite Hid.
    destruct (getExtension w id) as [ext|e1]; [|by eexists].
    destruct (fetch w _ _). by eexists.
Qed.

End Properties.

(** ** The properties on the concrete inputs *)

Lemma rejected_only_by_unguarded_witness :
  (resolve broken_disk "vscode:extension/acme.foo").2 = Thrown (Error "EBUSY")
  ∧ unguarded broken_disk (Error "EBUSY").
Proof.
  assert (H : (resolve broken_disk "vscode:extension/acme.foo").2
              = Thrown (Error "EBUSY")) by (vm_compute; reflexivity).
  exact (conj H (rejected_only_by_unguarded broken_disk _ _ H)).
Defined.

(** On a fresh install the archive is downloaded, unpacked, its download
    file removed, and the plugin added. *)
Example fresh_install_calls :
  resolve fresh_install "vscode:extension/acme.foo" =
  ([Console (TryingToResolve "acme.foo");
    Console (ResolvedTo "acme.foo" "acme.foo-1.0.0");
    EnsureDir "file:///ext";
    Console (TryingToDownload "acme.foo-1.0.0" "https://open-vsx.org/acme.foo.vsix");
    Download "https://open-vsx.org/acme.foo.vsix" "file:///ext/0000";
    Console (Downloaded "acme.foo-1.0.0" "file:///ext/0000");
    Console (TryingToDecompress "acme.foo-1.0.0" "file:///ext/acme.foo-1.0.0");
    Decompress "file:///ext/0000" "file:///ext/acme.foo-1.0.0";
    Remove "file:///ext/0000";
    Console (DecompressTo "acme.foo-1.0.0" "file:///ext/acme.foo-1.0.0");
    AddPlugin "acme.foo-1.0.0" "file:///ext/acme.foo-1.0.0"],
   Returned tt).
Proof. vm_compute. reflexivity. Qed.

(** After a 404 on the download nothing is removed and nothing added. *)
Example gone_calls :
  removed (resolve gone "vscode:extension/acme.foo").1 = []
  ∧ added (resolve gone "vscode:extension/acme.foo").1 = []
  ∧ (resolve gone "vscode:extension/acme.foo").2 = Returned tt.
Proof. vm_compute. done. Qed.

End Resolver.
